(** * Clarity: the client-side derived-state layer of the finance dashboard

    A shallow embedding of the pure parts of [frontend/src/Dashboard.tsx] and
    [frontend/src/CategoryView.tsx]: the totals, the chart aggregations
    ([buildAreaData], [buildPieData]), the spending-limit hook and banner
    ([useSpendingLimits], [LimitBanner]), the savings-milestone hook
    ([useMilestones]), the category ordering of the category view
    ([orderedCategories]) and the session-persisted filter fields; then the
    next-milestone progress of the net card, the form of the limit modal,
    the three-step transaction form ([StepModal]), the request parameters
    of the filters, and the sections, counts and drags of the category
    view.

    Conventions of the embedding.
    - A JavaScript [number] is an exact rational or [NaN]: binary64 rounding
      and the infinities are outside the model.  The statements about sums
      say which amounts a sum adds, in the order of the list; two sums that
      group the same amounts differently are equal in this arithmetic and
      need not be in the program's, so no such equality is stated, and
      [Binary64] evaluates the same code on the program's numbers where the
      grouping decides.
    - A JavaScript string is a [string] of bytes; comparison of strings is
      comparison of code units, which on ASCII text is comparison of bytes.
    - A [Map] is an association list in insertion order with distinct keys.
    - React state is passed explicitly: a hook is a function from the state
      of the previous render to the state after the effects have run. *)

From stdpp Require Import gmap strings.
From Stdlib Require Import String Ascii List ZArith QArith Qcanon Qabs Qround Lia.
From Stdlib Require Import Permutation Sorted OrderedTypeEx.
From Stdlib Require PrimFloat.
Import ListNotations.

Local Open Scope string_scope.
Local Open Scope list_scope.
Local Open Scope Z_scope.

(* ===================================================================== *)
(** * Part I: definitions                                                  *)
(* ===================================================================== *)

(** ** JavaScript numbers *)

Module JS.

Inductive number : Type :=
| Num (q : Qc)
| NaN.

Definition ofZ (z : Z) : number := Num (Q2Qc (inject_Z z)).

(** [a + b], [a - b], [a * b]: [NaN] is absorbing.  The operations are
    exact, where the program rounds each result to binary64: they are
    associative here and not in the program. *)
Definition add (a b : number) : number :=
  match a, b with
  | Num x, Num y => Num (x + y)%Qc
  | _, _ => NaN
  end.

Definition sub (a b : number) : number :=
  match a, b with
  | Num x, Num y => Num (x - y)%Qc
  | _, _ => NaN
  end.

Definition mul (a b : number) : number :=
  match a, b with
  | Num x, Num y => Num (x * y)%Qc
  | _, _ => NaN
  end.

(** [a / b].  The program divides only by a limit it has tested to be
    positive; a zero divisor would give an infinity or [NaN] in JavaScript
    and is mapped to [NaN] here. *)
Definition div (a b : number) : number :=
  match a, b with
  | Num x, Num y =>
      if Qc_eq_bool y (Q2Qc 0) then NaN else Num (x / y)%Qc
  | _, _ => NaN
  end.

(** The relational operators: every comparison with [NaN] is [false]. *)
Definition lt (a b : number) : bool :=
  match a, b with
  | Num x, Num y => match (x ?= y)%Qc with Lt => true | _ => false end
  | _, _ => false
  end.

Definition le (a b : number) : bool :=
  match a, b with
  | Num x, Num y => match (x ?= y)%Qc with Gt => false | _ => true end
  | _, _ => false
  end.

Definition gt (a b : number) : bool := lt b a.
Definition ge (a b : number) : bool := le b a.

(** [a === b] on numbers: [NaN] differs from itself. *)
Definition eqb (a b : number) : bool :=
  match a, b with
  | Num x, Num y => Qc_eq_bool x y
  | _, _ => false
  end.

Definition isNaN (a : number) : bool :=
  match a with NaN => true | Num _ => false end.

(** *** [parseFloat]

    The longest prefix of the trimmed input that is a decimal literal
    ([+-]? digits [. digits]? ([eE] [+-]? digits)?, or with the integer
    part missing when a fraction digit follows the point); [NaN] when there
    is none.  The model has no infinities: the literal [Infinity], which
    the program reads as an infinity, reads as [NaN] here, and
    [isInfinityLiteral] tells such an input apart; a literal beyond the
    range of binary64 keeps its exact value.  The white space skipped is
    the ASCII white space. *)

Definition is_digit (c : ascii) : bool :=
  let n := N_of_ascii c in ((48 <=? n) && (n <=? 57))%N.

Definition digit_val (c : ascii) : Z := Z.of_N (N_of_ascii c) - 48.

Definition is_space (c : ascii) : bool :=
  let n := N_of_ascii c in
  ((n =? 32) || ((9 <=? n) && (n <=? 13)))%N.

Fixpoint skip_space (s : string) : string :=
  match s with
  | String c r => if is_space c then skip_space r else s
  | EmptyString => s
  end.

(** Reads a run of digits: the value accumulated, the number of digits
    read, and the rest of the input. *)
Fixpoint read_digits (s : string) (acc : Z) (count : nat) : Z * nat * string :=
  match s with
  | String c r =>
      if is_digit c then read_digits r (10 * acc + digit_val c) (S count)
      else (acc, count, s)
  | EmptyString => (acc, count, s)
  end.

Definition read_sign (s : string) : bool * string :=
  match s with
  | String "-" r => (true, r)
  | String "+" r => (false, r)
  | _ => (false, s)
  end.

(** The exponent part, 0 when there is none (an [e] that no digit follows
    is not part of the literal). *)
Definition read_exponent (s : string) : Z :=
  match s with
  | String c r =>
      if (Ascii.eqb c "e" || Ascii.eqb c "E")%bool then
        let '(neg, r1) := read_sign r in
        let '(e, n, _) := read_digits r1 0 0%nat in
        match n with
        | O => 0
        | S _ => if neg then - e else e
        end
      else 0
  | EmptyString => 0
  end.

Definition pow10 (e : Z) : Qc :=
  match e with
  | Z0 => Q2Qc 1
  | Zpos p => Q2Qc (inject_Z (Z.pow_pos 10 p))
  | Zneg p => Q2Qc (1 # Pos.pow 10 p)
  end.

Definition parseFloat (input : string) : number :=
  let '(neg, s1) := read_sign (skip_space input) in
  let '(ip, ni, s2) := read_digits s1 0 0%nat in
  let '(fp, nf, s3) :=
    match s2 with
    | String "." r => read_digits r 0 0%nat
    | _ => (0, 0%nat, s2)
    end in
  match ni, nf with
  | O, O => NaN
  | _, _ =>
      let frac := match nf with
                  | O => Q2Qc 0
                  | S _ => Q2Qc (fp # Pos.pow 10 (Pos.of_nat nf))
                  end in
      let mant := (Q2Qc (inject_Z ip) + frac)%Qc in
      let v := (mant * pow10 (read_exponent s3))%Qc in
      Num (if neg then (- v)%Qc else v)
  end.

(** Whether the input is read as an infinity by the program: [Infinity]
    after the white space and the sign. *)
Definition isInfinityLiteral (input : string) : bool :=
  let '(_, s1) := read_sign (skip_space input) in
  String.prefix "Infinity" s1.

(** A string of decimal digits, and a character that ends a literal which
    has its digits: anything but a digit and the [e] of an exponent. *)
Fixpoint digits (s : string) : bool :=
  match s with
  | String c r => is_digit c && digits r
  | EmptyString => true
  end.

Definition endsLiteral (c : ascii) : bool :=
  negb (is_digit c) && negb (Ascii.eqb c "e") && negb (Ascii.eqb c "E").

End JS.

Import JS.

Declare Scope js_scope.
Delimit Scope js_scope with js.
Bind Scope js_scope with number.
Infix "+" := add : js_scope.
Infix "-" := sub : js_scope.
Infix "*" := mul : js_scope.
Infix "/" := div : js_scope.

(** ** Strings, dates and the clock *)

Module Dates.

(** [a.localeCompare(b)] and the relational operators on strings.  The
    collation of [localeCompare] orders digits and the hyphen as their
    code units are ordered, so on the ISO dates [YYYY-MM-DD] of the data
    model it is the comparison of code units that [>=] performs; on other
    strings the collation of the program may order differently, and the
    order of dates is stated for ISO dates only. *)
Definition localeCompare (a b : string) : number :=
  match String.compare a b with
  | Lt => ofZ (-1)
  | Eq => ofZ 0
  | Gt => ofZ 1
  end.

Definition str_ge (a b : string) : bool :=
  match String.compare a b with Lt => false | _ => true end.

Definition str_le (a b : string) : bool :=
  match String.compare a b with Gt => false | _ => true end.

(** The same order as propositions. *)
Definition slt (a b : string) : Prop := String.compare a b = Lt.
Definition sle (a b : string) : Prop := String.compare a b <> Gt.

(** The proleptic Gregorian calendar, as [Date] counts days in UTC. *)
Record civil : Type := mkCivil { year : Z; month : Z; day : Z }.

Definition is_leap (y : Z) : bool :=
  ((y mod 4 =? 0) && negb (y mod 100 =? 0)) || (y mod 400 =? 0).

Definition days_in_month (y m : Z) : Z :=
  if m =? 2 then (if is_leap y then 29 else 28)
  else if (m =? 4) || (m =? 6) || (m =? 9) || (m =? 11) then 30
  else 31.

Definition next_day (c : civil) : civil :=
  if day c <? days_in_month (year c) (month c)
  then mkCivil (year c) (month c) (day c + 1)
  else if month c <? 12
       then mkCivil (year c) (month c + 1) 1
       else mkCivil (year c + 1) 1 1.

Definition epoch : civil := mkCivil 1970 1 1.

(** The date [n] days after 1970-01-01. *)
Definition civil_of_days (n : nat) : civil := Nat.iter n next_day epoch.

Definition digit_char (d : Z) : ascii := ascii_of_N (Z.to_N (48 + d)).

Definition pad2 (n : Z) : string :=
  String (digit_char (n / 10 mod 10)) (String (digit_char (n mod 10)) "").

Definition pad4 (n : Z) : string :=
  String (digit_char (n / 1000 mod 10))
    (String (digit_char (n / 100 mod 10)) (pad2 n)).

(** [YYYY-MM-DD], the part of [toISOString()] before the [T] (years 0000
    to 9999; beyond them [toISOString] writes a signed six-digit year). *)
Definition isoDate (c : civil) : string :=
  (pad4 (year c) ++ "-" ++ pad2 (month c) ++ "-" ++ pad2 (day c))%string.

Definition msPerDay : Z := 86400000.

(** A date of the calendar with a four-digit year, and the order of
    dates. *)
Definition validCivil (c : civil) : Prop :=
  0 <= year c <= 9999 /\ 1 <= month c <= 12 /\ 1 <= day c <= 31.

Definition wellFormed (c : civil) : Prop :=
  1970 <= year c /\ 1 <= month c <= 12 /\ 1 <= day c <= 31.

(** A number that grows with the date. *)
Definition key (c : civil) : Z := (year c * 16 + month c) * 32 + day c.

Definition civilCompare (a b : civil) : comparison :=
  match year a ?= year b with
  | Eq => match month a ?= month b with
          | Eq => day a ?= day b
          | r => r
          end
  | r => r
  end.

(** [new Date(ms).toISOString().split("T")[0]] for a time [ms] at or after
    the epoch. *)
Definition toISODate (ms : Z) : string :=
  isoDate (civil_of_days (Z.to_nat (ms / msPerDay))).

(** The ISO date of the day [n] days after the epoch. *)
Definition isoDay (n : nat) : string := isoDate (civil_of_days n).

(** [new Date(d).toLocaleDateString("en-US", {month: "short", day:
    "numeric"})] for a date-only ISO string [d] of the calendar, in a
    browser whose zone is UTC (a zone west of Greenwich shows the previous
    day).  The label is only carried along: no statement depends on what
    it reads. *)
Definition monthName (m : Z) : string :=
  nth (Z.to_nat (m - 1))
    ["Jan"; "Feb"; "Mar"; "Apr"; "May"; "Jun";
     "Jul"; "Aug"; "Sep"; "Oct"; "Nov"; "Dec"] "Invalid Date".

Definition two_digits (s : string) : option Z :=
  match s with
  | String a (String b "") =>
      if is_digit a && is_digit b then Some (10 * digit_val a + digit_val b) else None
  | _ => None
  end.

Definition showDay (d : Z) : string :=
  if d <? 10 then String (digit_char d) "" else pad2 d.

Definition fmtShort (d : string) : string :=
  match two_digits (substring 5 2 d), two_digits (substring 8 2 d) with
  | Some m, Some dd =>
      if (String.length d =? 10)%nat && (1 <=? m) && (m <=? 12) && (1 <=? dd) && (dd <=? 31)
      then (monthName m ++ " " ++ showDay dd)%string
      else "Invalid Date"
  | _, _ => "Invalid Date"
  end.

End Dates.

Import Dates.

(** ** Transactions *)

Inductive TxType : Type := income | expense.

Definition TxType_eqb (a b : TxType) : bool :=
  match a, b with
  | income, income | expense, expense => true
  | _, _ => false
  end.

(** [interface Transaction]; [type] is the union ["income" | "expense"]. *)
Module Tx.
Record Transaction : Type := mk {
  id : Z;
  type : TxType;
  amount : string;
  category : string;
  description : string;
  date : string;
  created_at : string;
  updated_at : string
}.
End Tx.
Abbreviation Transaction := Tx.Transaction.

(** ** [Map]: insertion-ordered, keyed by strings *)

Module JSMap.
Section Ops.
Context {V : Type}.

Fixpoint get (m : list (string * V)) (k : string) : option V :=
  match m with
  | [] => None
  | (k', v) :: r => if String.eqb k' k then Some v else get r k
  end.

Definition has (m : list (string * V)) (k : string) : bool :=
  match get m k with Some _ => true | None => false end.

(** [m.set(k, v)]: a present key keeps its place, a new key goes last. *)
Fixpoint set (m : list (string * V)) (k : string) (v : V) : list (string * V) :=
  match m with
  | [] => [(k, v)]
  | (k', v') :: r =>
      if String.eqb k' k then (k, v) :: r else (k', v') :: set r k v
  end.

Definition keys (m : list (string * V)) : list string := map fst m.
End Ops.
End JSMap.

(** ** [Array.prototype.sort] with a comparator

    The sort is stable; an element moves behind another only when the
    comparator says it is greater (a [NaN] or zero result leaves the order).
    For a consistent comparator the result of a stable sort is unique, so
    insertion from the right stands for the engine's algorithm. *)

Section ArraySort.
Context {A : Type} (cmp : A -> A -> number).

Fixpoint sort_insert (x : A) (l : list A) : list A :=
  match l with
  | [] => [x]
  | y :: r => if gt (cmp x y) (ofZ 0) then y :: sort_insert x r else x :: l
  end.

Definition Array_sort (l : list A) : list A := fold_right sort_insert [] l.
End ArraySort.

(** [xs.reduce((s, t) => s + parseFloat(t.amount), 0)] *)
Definition sumAmounts (xs : list Transaction) : number :=
  fold_left (fun s t => (s + parseFloat (Tx.amount t))%js) xs (ofZ 0).

(** ** The totals of [Dashboard] *)

Definition totalIncome (transactions : list Transaction) : number :=
  sumAmounts (filter (fun t => TxType_eqb (Tx.type t) income) transactions).

Definition totalExpense (transactions : list Transaction) : number :=
  sumAmounts (filter (fun t => TxType_eqb (Tx.type t) expense) transactions).

Definition net (transactions : list Transaction) : number :=
  (totalIncome transactions - totalExpense transactions)%js.

(** ** [buildAreaData] *)

Module Area.
(** The values of the map: [{ income, expense }]. *)
Record Bucket : Type := mkBucket { b_income : number; b_expense : number }.

(** The points of the chart: [{ date, income, expense }]. *)
Record Point : Type := mkPoint { date : string; income : number; expense : number }.
End Area.

(** [{ income: 0, expense: 0 }] *)
Definition zero : Area.Bucket := Area.mkBucket (ofZ 0) (ofZ 0).

(** [if (t.type === "income") e.income += parseFloat(t.amount); else
    e.expense += parseFloat(t.amount)] *)
Definition upd (t : Transaction) (e : Area.Bucket) : Area.Bucket :=
  match Tx.type t with
  | income => Area.mkBucket (Area.b_income e + parseFloat (Tx.amount t))%js (Area.b_expense e)
  | expense => Area.mkBucket (Area.b_income e) (Area.b_expense e + parseFloat (Tx.amount t))%js
  end.

(** The body of the [forEach]: the bucket of the date is created when
    missing and then updated in place. *)
Definition area_step (m : list (string * Area.Bucket)) (t : Transaction)
  : list (string * Area.Bucket) :=
  let m1 := if JSMap.has m (Tx.date t) then m
            else JSMap.set m (Tx.date t) zero in
  match JSMap.get m1 (Tx.date t) with
  | Some e => JSMap.set m1 (Tx.date t) (upd t e)
  | None => m1
  end.

(** The map after the loop over the transactions sorted by date. *)
Definition areaMap (transactions : list Transaction) : list (string * Area.Bucket) :=
  fold_left area_step
    (Array_sort (fun a b => localeCompare (Tx.date a) (Tx.date b)) transactions) [].

(** [([date, v]) => ({ date: fmtShort(date), ...v })] *)
Definition areaPoint (entry : string * Area.Bucket) : Area.Point :=
  let '(d, v) := entry in
  Area.mkPoint (fmtShort d) (Area.b_income v) (Area.b_expense v).

Definition buildAreaData (transactions : list Transaction) : list Area.Point :=
  map areaPoint (areaMap transactions).

(** ** [buildPieData] *)

Module Pie.
Record Slice : Type := mkSlice { name : string; value : number }.
End Pie.

(** [parseFloat(value.toFixed(2))]: the nearest multiple of 1/100, a tie
    going away from zero; [NaN] prints as ["NaN"] and parses back to [NaN]. *)
Definition round2 (x : number) : number :=
  match x with
  | Num q =>
      let a := (Qabs (this q) * inject_Z 100 + (1 # 2))%Q in
      let n := Qfloor a in
      Num (Q2Qc ((if Qle_bool 0 (this q) then n else - n) # 100))
  | NaN => NaN
  end.

Definition pie_step (m : list (string * number)) (t : Transaction) : list (string * number) :=
  JSMap.set m (Tx.category t)
    (match JSMap.get m (Tx.category t) with Some v => v | None => ofZ 0 end
     + parseFloat (Tx.amount t))%js.

Definition pieMap (transactions : list Transaction) : list (string * number) :=
  fold_left pie_step
    (filter (fun t => TxType_eqb (Tx.type t) expense) transactions) [].

(** [([name, value]) => ({ name, value: parseFloat(value.toFixed(2)) })] *)
Definition pieSlice (entry : string * number) : Pie.Slice :=
  let '(n, v) := entry in Pie.mkSlice n (round2 v).

Definition buildPieData (transactions : list Transaction) : list Pie.Slice :=
  Array_sort (fun a b => (Pie.value b - Pie.value a)%js)
    (map pieSlice (pieMap transactions)).

(** ** [useSpendingLimits] and [LimitBanner] *)

Module Limits.

Record SpendingLimits : Type := mkLimits { daily : number; weekly : number }.

Record Result : Type := mkResult {
  dailySpend : number;
  weeklySpend : number;
  dailyPct : number;
  weeklyPct : number
}.

(** The derived values of the hook; [now] is the clock ([new Date()] and
    [Date.now()], read in the same render). *)
Definition useSpendingLimits (now : Z) (limits : SpendingLimits)
    (transactions : list Transaction) : Result :=
  let today := toISODate now in
  let weekAgo := toISODate (now - 7 * 86400000) in
  let dailySpend :=
    sumAmounts (filter (fun t => TxType_eqb (Tx.type t) expense
                                 && String.eqb (Tx.date t) today) transactions) in
  let weeklySpend :=
    sumAmounts (filter (fun t => TxType_eqb (Tx.type t) expense
                                 && str_ge (Tx.date t) weekAgo) transactions) in
  let dailyPct :=
    if gt (daily limits) (ofZ 0) then (dailySpend / daily limits * ofZ 100)%js else ofZ 0 in
  let weeklyPct :=
    if gt (weekly limits) (ofZ 0) then (weeklySpend / weekly limits * ofZ 100)%js else ofZ 0 in
  mkResult dailySpend weeklySpend dailyPct weeklyPct.

(** What [LimitBanner] renders: nothing, or a banner whose style and title
    follow [over] and whose bar follows [warning]. *)
Record Banner : Type := mkBanner { over : bool; warning : bool }.

Definition LimitBanner (spent limit pct : number) (dismissed : bool) : option Banner :=
  if le limit (ofZ 0) || lt pct (ofZ 80) || dismissed then None
  else Some (mkBanner (ge pct (ofZ 100)) (ge pct (ofZ 80) && lt pct (ofZ 100))).

(** The percentage the hook hands to the banner for one limit. *)
Definition pctOf (spend limit : number) : number :=
  if gt limit (ofZ 0) then (spend / limit * ofZ 100)%js else ofZ 0.

End Limits.

(** ** [useMilestones] *)

Module Milestones.

Definition SAVING_MILESTONES : list number :=
  map ofZ [100; 250; 500; 1000; 2500; 5000; 10000].

(** [celebrated] and [toastMilestone] are React state, [prevNetRef] is the
    ref. *)
Record State : Type := mkState {
  celebrated : list number;
  toastMilestone : option number;
  prevNetRef : number
}.

(** [xs.includes(m)] compares with SameValueZero. *)
Definition sameValueZero (a b : number) : bool :=
  match a, b with
  | Num x, Num y => Qc_eq_bool x y
  | NaN, NaN => true
  | _, _ => false
  end.

Definition includes (xs : list number) (m : number) : bool :=
  existsb (sameValueZero m) xs.

(** The test of the loop:
    [prevNet < m && net >= m && !celebrated.includes(m)]. *)
Definition test (prevNet net : number) (st : State) (m : number) : bool :=
  lt prevNet m && ge net m && negb (includes (celebrated st) m).

(** The [for] loop of the effect: the first threshold that passes the test
    is celebrated and the effect returns. The second component is the
    threshold whose toast and confetti were fired, if any. *)
Fixpoint scan (ms : list number) (prevNet net : number) (st : State)
  : State * option number :=
  match ms with
  | [] => (st, None)
  | m :: rest =>
      if test prevNet net st m
      then (mkState (celebrated st ++ [m]) (Some m) (prevNetRef st), Some m)
      else scan rest prevNet net st
  end.

(** One run of the effect for the value [net] of the render. *)
Definition effect (net : number) (st : State) : State * option number :=
  let prevNet := prevNetRef st in
  let st1 := mkState (celebrated st) (toastMilestone st) net in
  if le net prevNet then (st1, None)
  else scan SAVING_MILESTONES prevNet net st1.

Definition events (e : option number) : list number :=
  match e with Some m => [m] | None => [] end.

(** One observation of [net]: the effect runs for the render, and, because
    [celebrated] is one of its dependencies, once more for the render that
    a celebration causes. *)
Definition observe (net : number) (st : State) : State * list number :=
  let '(st1, e1) := effect net st in
  match e1 with
  | None => (st1, [])
  | Some _ =>
      let '(st2, e2) := effect net st1 in
      (st2, events e1 ++ events e2)
  end.

(** The hook's state at its first render: [useRef(net)]. *)
Definition init (net0 : number) : State := mkState [] None net0.

(** The renders of a session: the mount with [net0], then one observation
    for each later value of [net]. *)
Fixpoint observeAll (nets : list number) (st : State) : State * list (list number) :=
  match nets with
  | [] => (st, [])
  | n :: rest =>
      let '(st1, ev) := observe n st in
      let '(st2, evs) := observeAll rest st1 in
      (st2, ev :: evs)
  end.

Definition session (net0 : number) (nets : list number) : State * list (list number) :=
  observeAll (net0 :: nets) (init net0).

(** [Dashboard] starts with [useState<Transaction[]>([])]: the hook is
    mounted on the empty list, and every fetched snapshot is a later
    render. *)
Definition dashboardSession (snapshots : list (list Transaction))
  : State * list (list number) :=
  session (net []) (map net snapshots).

End Milestones.

(** ** The category order of [CategoryView] *)

Module Category.

(** The body of the [forEach] that groups the filtered transactions. *)
Definition group_step (m : list (string * list Transaction)) (t : Transaction)
  : list (string * list Transaction) :=
  let m1 := if JSMap.has m (Tx.category t) then m
            else JSMap.set m (Tx.category t) [] in
  match JSMap.get m1 (Tx.category t) with
  | Some l => JSMap.set m1 (Tx.category t) (l ++ [t])
  | None => m1
  end.

Definition grouped (transactions : list Transaction) (activeTab : TxType)
  : list (string * list Transaction) :=
  fold_left group_step
    (filter (fun t => TxType_eqb (Tx.type t) activeTab) transactions) [].

Definition includes (xs : list string) (c : string) : bool :=
  existsb (String.eqb c) xs.

(** The merge of the saved order with the categories of the data
    ([fromData] in the source, [observedCategories] in the
    specification). *)
Definition mergeWithObserved (categoryOrder fromData : list string) : list string :=
  let saved := filter (fun c => includes fromData c) categoryOrder in
  let newOnes := filter (fun c => negb (includes saved c)) fromData in
  saved ++ newOnes.

Definition orderedCategories (transactions : list Transaction) (activeTab : TxType)
    (categoryOrder : list string) : list string :=
  mergeWithObserved categoryOrder (JSMap.keys (grouped transactions activeTab)).

End Category.

(** ** The filter fields and their session storage *)

Module Filters.

(** The four filter fields of a render and the session storage. *)
Record State : Type := mkState {
  filterType : string;
  filterCategory : string;
  filterFrom : string;
  filterTo : string;
  sessionStorage : gmap string string
}.

Definition kType : string := "clarity:filterType".
Definition kCategory : string := "clarity:filterCategory".
Definition kFrom : string := "clarity:filterFrom".
Definition kTo : string := "clarity:filterTo".

(** [sessionStorage.getItem(k) ?? ""] *)
Definition getOrEmpty (store : gmap string string) (k : string) : string :=
  match store !! k with Some v => v | None => "" end.

(** The button is rendered when some field is not the empty string. *)
Definition clearVisible (st : State) : bool :=
  negb (String.eqb (filterType st) "") || negb (String.eqb (filterCategory st) "")
  || negb (String.eqb (filterFrom st) "") || negb (String.eqb (filterTo st) "").

(** The click handler of the button: four state updates, four
    [removeItem]. *)
Definition clearClick (st : State) : State :=
  mkState "" "" "" ""
    (delete kTo (delete kFrom (delete kCategory (delete kType (sessionStorage st))))).

(** [useEffect(() => sessionStorage.setItem(k, v), [v])]: the effect runs
    after a render in which [v] differs from the render before. *)
Definition persist (k old new : string) (store : gmap string string)
  : gmap string string :=
  if String.eqb old new then store else <[k := new]> store.

(** The effects of the render that follows a handler; [prev] is the render
    the handler ran in. *)
Definition runEffects (prev st : State) : State :=
  mkState (filterType st) (filterCategory st) (filterFrom st) (filterTo st)
    (persist kTo (filterTo prev) (filterTo st)
      (persist kFrom (filterFrom prev) (filterFrom st)
        (persist kCategory (filterCategory prev) (filterCategory st)
          (persist kType (filterType prev) (filterType st) (sessionStorage st))))).

(** The whole operation: the click and the render it causes. *)
Definition clearFilters (st : State) : State := runEffects st (clearClick st).

(** The first render of a session: the fields are read from the storage
    and every effect runs once. *)
Definition mount (store : gmap string string) : State :=
  let ft := getOrEmpty store kType in
  let fc := getOrEmpty store kCategory in
  let ff := getOrEmpty store kFrom in
  let fo := getOrEmpty store kTo in
  mkState ft fc ff fo
    (<[kTo := fo]> (<[kFrom := ff]> (<[kCategory := fc]> (<[kType := ft]> store)))).

(** What the storage holds for the key of a field once the click and the
    render after it are done: nothing when the field was empty already,
    the empty string when it was set. *)
Definition afterClear (field : string) : option string :=
  if String.eqb field "" then None else Some "".

End Filters.

(** ** The specification's readings, for comparison with the code *)

Module Spec.

(** The sum of the parsed amounts of the records that satisfy [p]. *)
Fixpoint sumWhere (p : Transaction -> bool) (transactions : list Transaction) : number :=
  match transactions with
  | [] => ofZ 0
  | t :: rest =>
      if p t then (parseFloat (Tx.amount t) + sumWhere p rest)%js
      else sumWhere p rest
  end.

(** The records of type [ty] dated [d], and of type [ty] in category [c]. *)
Definition onDate (ty : TxType) (d : string) (t : Transaction) : bool :=
  TxType_eqb (Tx.type t) ty && String.eqb (Tx.date t) d.

Definition inCategory (ty : TxType) (c : string) (t : Transaction) : bool :=
  TxType_eqb (Tx.type t) ty && String.eqb (Tx.category t) c.

(** "Groups by exact date string, summing amounts per type per date". *)
Definition bucketOf (d : string) (transactions : list Transaction) : Area.Bucket :=
  Area.mkBucket (sumWhere (onDate income d) transactions)
                (sumWhere (onDate expense d) transactions).

(** "Expense amounts where [date >= today - 6 days] and [date <= today]",
    the dates compared as ISO strings. *)
Definition weeklySpend (now : Z) (transactions : list Transaction) : number :=
  sumWhere (fun t => TxType_eqb (Tx.type t) expense
                     && str_ge (Tx.date t) (toISODate (now - 6 * msPerDay))
                     && str_le (Tx.date t) (toISODate now))
           transactions.

(** "Sums [amount] per type". *)
Definition sumOfType (ty : TxType) (transactions : list Transaction) : number :=
  sumWhere (fun t => TxType_eqb (Tx.type t) ty) transactions.


(** "A threshold [m] not yet in [achieved] with [previousNet < m <= net]",
    and the lowest of them. *)
Definition candidate (st : Milestones.State) (net m : number) : Prop :=
  In m Milestones.SAVING_MILESTONES /\
  lt (Milestones.prevNetRef st) m = true /\ le m net = true /\
  ~ In m (Milestones.celebrated st).

Definition lowestCandidate (st : Milestones.State) (net m : number) : Prop :=
  candidate st net m /\ forall m', candidate st net m' -> le m m' = true.

(** "In their first-observed order": each value once, at the place of its
    first occurrence. *)
Fixpoint firstSeen (seen xs : list string) : list string :=
  match xs with
  | [] => []
  | x :: rest =>
      if Category.includes seen x then firstSeen seen rest
      else x :: firstSeen (seen ++ [x]) rest
  end.

End Spec.

(** ** More of the dashboard: progress, limit form, wizard, requests *)

(** Truthiness of a number, and [x || 0]. *)
Definition truthy (x : number) : bool :=
  match x with
  | Num q => negb (Qc_eq_bool q (Q2Qc 0))
  | NaN => false
  end.

Definition orZero (x : number) : number := if truthy x then x else ofZ 0.

(** [Math.min(a, b)]: [NaN] when an argument is [NaN]. *)
Definition Math_min (a b : number) : number :=
  match a, b with
  | Num _, Num _ => if le a b then a else b
  | _, _ => NaN
  end.

Module Progress.

(** [SAVING_MILESTONES.find(m => m > net)] *)
Definition nextMilestone (net : number) : option number :=
  find (fun m => gt m net) Milestones.SAVING_MILESTONES.

(** [nextMilestone ? Math.min((net / nextMilestone) * 100, 100) : 100] *)
Definition nextPct (net : number) : number :=
  match nextMilestone net with
  | Some m => if truthy m then Math_min (net / m * ofZ 100)%js (ofZ 100) else ofZ 100
  | None => ofZ 100
  end.

(** What the net card shows under the balance: the progress row when
    [net > 0 && nextMilestone], the trophy line when
    [net > 0 && !nextMilestone], nothing otherwise. *)
Inductive Hint : Type :=
| ProgressRow (width remaining target : number)
| AllReached
| NoHint.

Definition milestoneHint (net : number) : Hint :=
  match nextMilestone net with
  | Some m =>
      if gt net (ofZ 0) && truthy m then ProgressRow (nextPct net) (m - net)%js m
      else NoHint
  | None => if gt net (ofZ 0) then AllReached else NoHint
  end.

End Progress.

Module LimitForm.

(** [save] of [LimitModal]:
    [onSave({ daily: parseFloat(daily) || 0, weekly: parseFloat(weekly) || 0 })] *)
Definition save (daily weekly : string) : Limits.SpendingLimits :=
  Limits.mkLimits (orZero (parseFloat daily)) (orZero (parseFloat weekly)).

End LimitForm.

(** ** [StepModal]: the three steps of the transaction form *)

Module Wizard.

Record FormState : Type := mkForm {
  type : TxType;
  amount : string;
  category : string;
  description : string;
  date : string
}.

Inductive Direction : Type := fwd | bwd.

(** The state of the modal ([step], [stepError], [direction]) with the
    form it edits. *)
Record State : Type := mkState {
  step : Z;
  stepError : string;
  direction : Direction;
  form : FormState
}.

(** [!s] for a string. *)
Definition isEmpty (s : string) : bool := String.eqb s "".

Definition goNext (st : State) : State :=
  if (step st =? 0)
     && (isEmpty (amount (form st)) || le (parseFloat (amount (form st))) (ofZ 0))
  then mkState (step st) "Please enter a valid amount greater than 0."
               (direction st) (form st)
  else if (step st =? 1) && isEmpty (category (form st))
  then mkState (step st) "Please select a category." (direction st) (form st)
  else mkState (step st + 1) "" fwd (form st).

Definition goBack (st : State) : State :=
  mkState (step st - 1) "" bwd (form st).

(** What the user can do while the modal is open.  The left button of the
    footer is Cancel at step 0 and Back after it; the right button is Next
    before the last step and Save at it; each input is rendered at its own
    step only. *)
Inductive Event : Type :=
| ClickLeft
| ClickRight
| KeyEnter
| KeyEscape
| PickType (ty : TxType)
| TypeAmount (s : string)
| PickCategory (c : string)
| TypeDescription (s : string)
| PickDate (s : string).

Definition withForm (st : State) (f : FormState) : State :=
  mkState (step st) (stepError st) (direction st) f.

(** The state after an event, or [None] when the event closes the modal.
    Save leaves the modal open until the request has succeeded. *)
Definition handle (e : Event) (st : State) : option State :=
  let f := form st in
  match e with
  | ClickLeft => if step st =? 0 then None else Some (goBack st)
  | ClickRight => if step st <? 2 then Some (goNext st) else Some st
  | KeyEnter => if step st <? 2 then Some (goNext st) else Some st
  | KeyEscape => None
  | PickType ty =>
      if step st =? 0
      then Some (withForm st (mkForm ty (amount f) (category f) (description f) (date f)))
      else Some st
  | TypeAmount s =>
      if step st =? 0
      then Some (withForm st (mkForm (type f) s (category f) (description f) (date f)))
      else Some st
  | PickCategory c =>
      if step st =? 1
      then Some (mkState (step st) "" (direction st)
                   (mkForm (type f) (amount f) c (description f) (date f)))
      else Some st
  | TypeDescription s =>
      if step st =? 2
      then Some (withForm st (mkForm (type f) (amount f) (category f) s (date f)))
      else Some st
  | PickDate s =>
      if step st =? 2
      then Some (withForm st (mkForm (type f) (amount f) (category f) (description f) s))
      else Some st
  end.

(** The modal opens at step 0 on the form it is given. *)
Definition open (f : FormState) : State := mkState 0 "" fwd f.

(** The state after a list of events, [None] once the modal is closed. *)
Fixpoint run (es : list Event) (st : State) : option State :=
  match es with
  | [] => Some st
  | e :: rest =>
      match handle e st with
      | Some st' => run rest st'
      | None => None
      end
  end.

(** The right button submits the form when it is not the Next button. *)
Definition showsSave (st : State) : bool := negb (step st <? 2).

(** The step is one of the three, the amount has passed its check once
    step 0 is left, and the category is set once step 1 is left. *)
Definition stepped (st : State) : Prop :=
  0 <= step st <= 2 /\
  (1 <= step st ->
     isEmpty (amount (form st)) = false /\
     le (parseFloat (amount (form st))) (ofZ 0) = false) /\
  (step st = 2 -> isEmpty (category (form st)) = false).

End Wizard.

(** ** The filter fields in use: changes, the request, a reload *)

Module FilterEvents.

Inductive Event : Type :=
| SetType (v : string)
| SetCategory (v : string)
| SetFrom (v : string)
| SetTo (v : string)
| ClickClear.

(** A change of the fields by a handler, and the render it causes. *)
Definition change (st : Filters.State) (ft fc ff fo : string) : Filters.State :=
  Filters.runEffects st (Filters.mkState ft fc ff fo (Filters.sessionStorage st)).

(** The handlers of the two selects, the two date inputs and the clear
    button (which is there to click only while a filter is set). *)
Definition handle (e : Event) (st : Filters.State) : Filters.State :=
  match e with
  | SetType v =>
      change st v (Filters.filterCategory st) (Filters.filterFrom st) (Filters.filterTo st)
  | SetCategory v =>
      change st (Filters.filterType st) v (Filters.filterFrom st) (Filters.filterTo st)
  | SetFrom v =>
      change st (Filters.filterType st) (Filters.filterCategory st) v (Filters.filterTo st)
  | SetTo v =>
      change st (Filters.filterType st) (Filters.filterCategory st) (Filters.filterFrom st) v
  | ClickClear => if Filters.clearVisible st then Filters.clearFilters st else st
  end.

Definition run (es : list Event) (st : Filters.State) : Filters.State :=
  fold_left (fun s e => handle e s) es st.

(** [if (v) params.append(k, v)] *)
Definition param (k v : string) : list (string * string) :=
  if String.eqb v "" then [] else [(k, v)].

(** The parameters [fetchTransactions] appends, in order. *)
Definition params (st : Filters.State) : list (string * string) :=
  param "type" (Filters.filterType st)
  ++ param "category" (Filters.filterCategory st)
  ++ param "date_from" (Filters.filterFrom st)
  ++ param "date_to" (Filters.filterTo st).

(** A reload of the page in the same session: the component is mounted
    again on the storage as it stands. *)
Definition reload (st : Filters.State) : Filters.State :=
  Filters.mount (Filters.sessionStorage st).

(** The storage gives back every field. *)
Definition synced (st : Filters.State) : Prop :=
  Filters.getOrEmpty (Filters.sessionStorage st) Filters.kType = Filters.filterType st /\
  Filters.getOrEmpty (Filters.sessionStorage st) Filters.kCategory = Filters.filterCategory st /\
  Filters.getOrEmpty (Filters.sessionStorage st) Filters.kFrom = Filters.filterFrom st /\
  Filters.getOrEmpty (Filters.sessionStorage st) Filters.kTo = Filters.filterTo st.

End FilterEvents.

(** ** The category view: sections, counts and drags *)

Module CategoryStats.

(** [grouped.get(cat) ?? []], the items of a section. *)
Definition items (transactions : list Transaction) (activeTab : TxType) (cat : string)
  : list Transaction :=
  match JSMap.get (Category.grouped transactions activeTab) cat with
  | Some l => l
  | None => []
  end.

(** [total] of [CategorySection]. *)
Definition sectionTotal (its : list Transaction) : number := sumAmounts its.

(** [total], [categoryCount] and [txCount] of the stats bar. *)
Definition total (transactions : list Transaction) (activeTab : TxType) : number :=
  sumAmounts (filter (fun t => TxType_eqb (Tx.type t) activeTab) transactions).

Definition categoryCount (transactions : list Transaction) (activeTab : TxType)
    (categoryOrder : list string) : nat :=
  length (Category.orderedCategories transactions activeTab categoryOrder).

Definition txCount (transactions : list Transaction) (activeTab : TxType) : nat :=
  length (concat (map snd (Category.grouped transactions activeTab))).


(** [xs.indexOf(x)]: the first index of [x], or -1. *)
Fixpoint indexOf (xs : list string) (x : string) : Z :=
  match xs with
  | [] => -1
  | y :: rest =>
      if String.eqb y x then 0
      else let i := indexOf rest x in if i <? 0 then -1 else i + 1
  end.

(** The index at which [splice(start, ...)] starts on an array of length
    [len]. *)
Definition spliceStart (len start : Z) : nat :=
  Z.to_nat (if start <? 0 then Z.max (len + start) 0 else Z.min start len).

(** Modelled from the spec: [arrayMove] of the drag-and-drop library, which
    is not part of the repository ("remove at source index, insert at
    destination index, preserving relative order of all other elements").
    It copies the array, splices the element at [from] out and splices it
    in at [to]; a negative [to] counts from the end of the array before the
    removal.  When nothing is removed (no such index) the library inserts
    [undefined], which a list of strings cannot hold: the array is returned
    as it is. *)
Definition arrayMove (array : list string) (from to : Z) : list string :=
  let len := Z.of_nat (length array) in
  let target := if to <? 0 then len + to else to in
  let i := spliceStart len from in
  match nth_error array i with
  | Some x =>
      let rest := firstn i array ++ skipn (S i) array in
      let j := spliceStart (len - 1) target in
      firstn j rest ++ x :: skipn j rest
  | None => array
  end.

(** [handleDragEnd]: the new saved order, for the order on display, the
    dragged category and the category it is dropped over (if any). *)
Definition handleDragEnd (orderedCategories categoryOrder : list string)
    (active : string) (over : option string) : list string :=
  match over with
  | None => categoryOrder
  | Some o =>
      if String.eqb active o then categoryOrder
      else arrayMove orderedCategories
             (indexOf orderedCategories active) (indexOf orderedCategories o)
  end.

End CategoryStats.

(** ** The sums on the numbers of the program

    The aggregations once more, on IEEE 754 binary64 with every operation
    rounded to nearest, as the program computes them.  A decimal literal
    is rounded once: the division of its numerator by its denominator is
    the correctly rounded value of the literal when both are below 2^53,
    as they are for an amount of up to fifteen digits. *)

Module Binary64.

Fixpoint ofPos (p : positive) : PrimFloat.float :=
  match p with
  | xH => PrimFloat.one
  | xO q => PrimFloat.mul PrimFloat.two (ofPos q)
  | xI q => PrimFloat.add (PrimFloat.mul PrimFloat.two (ofPos q)) PrimFloat.one
  end.

Definition ofInt (z : Z) : PrimFloat.float :=
  match z with
  | Z0 => PrimFloat.zero
  | Zpos p => ofPos p
  | Zneg p => PrimFloat.opp (ofPos p)
  end.

Definition ofNumber (x : number) : PrimFloat.float :=
  match x with
  | Num q => PrimFloat.div (ofInt (Qnum (this q))) (ofPos (Qden (this q)))
  | NaN => PrimFloat.nan
  end.

Definition parseFloat (input : string) : PrimFloat.float :=
  ofNumber (JS.parseFloat input).

(** [xs.reduce((s, t) => s + parseFloat(t.amount), 0)] *)
Definition sumAmounts (xs : list Transaction) : PrimFloat.float :=
  fold_left (fun s t => PrimFloat.add s (parseFloat (Tx.amount t))) xs PrimFloat.zero.

Definition totalIncome (transactions : list Transaction) : PrimFloat.float :=
  sumAmounts (filter (fun t => TxType_eqb (Tx.type t) income) transactions).

Definition totalExpense (transactions : list Transaction) : PrimFloat.float :=
  sumAmounts (filter (fun t => TxType_eqb (Tx.type t) expense) transactions).

(** [buildAreaData] *)
Record Bucket : Type := mkBucket { b_income : PrimFloat.float; b_expense : PrimFloat.float }.

Definition zero : Bucket := mkBucket PrimFloat.zero PrimFloat.zero.

Definition upd (t : Transaction) (e : Bucket) : Bucket :=
  match Tx.type t with
  | income =>
      mkBucket (PrimFloat.add (b_income e) (parseFloat (Tx.amount t))) (b_expense e)
  | expense =>
      mkBucket (b_income e) (PrimFloat.add (b_expense e) (parseFloat (Tx.amount t)))
  end.

Definition area_step (m : list (string * Bucket)) (t : Transaction)
  : list (string * Bucket) :=
  let m1 := if JSMap.has m (Tx.date t) then m
            else JSMap.set m (Tx.date t) zero in
  match JSMap.get m1 (Tx.date t) with
  | Some e => JSMap.set m1 (Tx.date t) (upd t e)
  | None => m1
  end.

Definition areaMap (transactions : list Transaction) : list (string * Bucket) :=
  fold_left area_step
    (Array_sort (fun a b => localeCompare (Tx.date a) (Tx.date b)) transactions) [].

Record Point : Type :=
  mkPoint { date : string; income : PrimFloat.float; expense : PrimFloat.float }.

Definition areaPoint (entry : string * Bucket) : Point :=
  let '(d, v) := entry in mkPoint (fmtShort d) (b_income v) (b_expense v).

Definition buildAreaData (transactions : list Transaction) : list Point :=
  map areaPoint (areaMap transactions).


(** [total] of [CategorySection] and [total] of the stats bar. *)
Definition sectionTotal (its : list Transaction) : PrimFloat.float := sumAmounts its.

Definition total (transactions : list Transaction) (activeTab : TxType) : PrimFloat.float :=
  sumAmounts (filter (fun t => TxType_eqb (Tx.type t) activeTab) transactions).

End Binary64.

(** ** Tactics *)

(** Closes an equation between two closed numbers by evaluation. *)
Ltac js_eval :=
  vm_compute;
  lazymatch goal with
  | |- Num _ = Num _ => f_equal; apply Qc_is_canon; reflexivity
  | |- _ => reflexivity
  end.

(* ===================================================================== *)
(** * Part II: properties                                                  *)
(* ===================================================================== *)

(** ** Arithmetic of [number] *)

Lemma ofZ_0 : ofZ 0 = Num 0%Qc.
Proof. reflexivity. Qed.

Lemma add_comm (a b : number) : (a + b)%js = (b + a)%js.
Proof. destruct a, b; simpl; try reflexivity. f_equal. apply Qcplus_comm. Qed.

Lemma add_assoc (a b c : number) : (a + (b + c))%js = (a + b + c)%js.
Proof. destruct a, b, c; simpl; try reflexivity. f_equal. apply Qcplus_assoc. Qed.

Lemma add_0_l (a : number) : (ofZ 0 + a)%js = a.
Proof. destruct a; simpl; try reflexivity. f_equal. apply Qcplus_0_l. Qed.

Lemma add_0_r (a : number) : (a + ofZ 0)%js = a.
Proof. rewrite add_comm. apply add_0_l. Qed.

Lemma add_NaN_l (a : number) : (NaN + a)%js = NaN.
Proof. reflexivity. Qed.

Lemma add_NaN_r (a : number) : (a + NaN)%js = NaN.
Proof. destruct a; reflexivity. Qed.

Lemma sub_NaN_l (a : number) : (NaN - a)%js = NaN.
Proof. reflexivity. Qed.

Lemma sub_NaN_r (a : number) : (a - NaN)%js = NaN.
Proof. destruct a; reflexivity. Qed.

(** ** Sums of amounts *)

Lemma fold_amounts_acc (xs : list Transaction) (a : number) :
  fold_left (fun s t => (s + parseFloat (Tx.amount t))%js) xs a
  = (a + sumAmounts xs)%js.
Proof.
  unfold sumAmounts. revert a.
  induction xs as [|t xs IH]; intros a; cbn [fold_left].
  - now rewrite add_0_r.
  - rewrite IH, (IH (ofZ 0 + _)%js), add_0_l. symmetry. apply add_assoc.
Qed.

Lemma sumAmounts_nil : sumAmounts [] = ofZ 0.
Proof. reflexivity. Qed.

Lemma sumAmounts_cons (t : Transaction) (xs : list Transaction) :
  sumAmounts (t :: xs) = (parseFloat (Tx.amount t) + sumAmounts xs)%js.
Proof.
  unfold sumAmounts at 1. cbn [fold_left]. now rewrite fold_amounts_acc, add_0_l.
Qed.

Lemma sumAmounts_app (xs ys : list Transaction) :
  sumAmounts (xs ++ ys) = (sumAmounts xs + sumAmounts ys)%js.
Proof.
  induction xs as [|t xs IH]; cbn [app].
  - now rewrite sumAmounts_nil, add_0_l.
  - now rewrite !sumAmounts_cons, IH, add_assoc.
Qed.

Lemma sumAmounts_filter (p : Transaction -> bool) (xs : list Transaction) :
  sumAmounts (filter p xs) = Spec.sumWhere p xs.
Proof.
  induction xs as [|t xs IH]; cbn [filter Spec.sumWhere]; [reflexivity|].
  destruct (p t); [|exact IH].
  now rewrite sumAmounts_cons, IH.
Qed.

Lemma sumWhere_app (p : Transaction -> bool) (xs ys : list Transaction) :
  Spec.sumWhere p (xs ++ ys) = (Spec.sumWhere p xs + Spec.sumWhere p ys)%js.
Proof.
  rewrite <- !sumAmounts_filter, filter_app. apply sumAmounts_app.
Qed.

Lemma sumWhere_perm (p : Transaction -> bool) (xs ys : list Transaction) :
  Permutation xs ys -> Spec.sumWhere p xs = Spec.sumWhere p ys.
Proof.
  induction 1 as [|t xs ys _ IH|a b xs|xs ys zs _ IH1 _ IH2]; cbn [Spec.sumWhere].
  - reflexivity.
  - now rewrite IH.
  - destruct (p a), (p b); try reflexivity.
    rewrite !add_assoc. f_equal. apply add_comm.
  - congruence.
Qed.

Lemma sumWhere_ext (p q : Transaction -> bool) (xs : list Transaction) :
  (forall t, In t xs -> p t = q t) -> Spec.sumWhere p xs = Spec.sumWhere q xs.
Proof.
  induction xs as [|t xs IH]; intros H; cbn [Spec.sumWhere]; [reflexivity|].
  rewrite (H t (or_introl eq_refl)), IH; [reflexivity|].
  intros u Hu. apply H. now right.
Qed.

Lemma sumAmounts_perm (xs ys : list Transaction) :
  Permutation xs ys -> sumAmounts xs = sumAmounts ys.
Proof.
  induction 1 as [|t xs ys _ IH|a b xs|xs ys zs _ IH1 _ IH2].
  - reflexivity.
  - now rewrite !sumAmounts_cons, IH.
  - rewrite !sumAmounts_cons, !add_assoc. f_equal. apply add_comm.
  - congruence.
Qed.

(** ** C8: the totals *)

(** C8. [totalIncome] is the sum of the amounts of the income records,
    [totalExpense] the sum of the amounts of the expense records, [net] is
    their difference, and on the empty list all three are 0. *)
Theorem totals_by_type (transactions : list Transaction) :
  totalIncome transactions = Spec.sumOfType income transactions /\
  totalExpense transactions = Spec.sumOfType expense transactions /\
  net transactions = (totalIncome transactions - totalExpense transactions)%js /\
  totalIncome [] = ofZ 0 /\ totalExpense [] = ofZ 0 /\ net [] = ofZ 0.
Proof.
  split; [apply sumAmounts_filter|].
  split; [apply sumAmounts_filter|].
  split; [reflexivity|].
  split; [reflexivity|].
  split; [reflexivity|].
  unfold net, totalIncome, totalExpense. cbn [filter]. rewrite sumAmounts_nil.
  reflexivity.
Qed.

(** ** Order on [number] *)

Lemma lt_true (a b : number) :
  lt a b = true <-> exists x y, a = Num x /\ b = Num y /\ (x < y)%Qc.
Proof.
  split.
  - destruct a as [x|], b as [y|]; unfold lt; try discriminate.
    destruct (x ?= y)%Qc eqn:E; try discriminate.
    intros _. exists x, y. split; [reflexivity|split; [reflexivity|]].
    now apply Qclt_alt.
  - intros (x & y & -> & -> & H). unfold lt.
    now rewrite (proj1 (Qclt_alt x y) H).
Qed.

Lemma le_true (a b : number) :
  le a b = true <-> exists x y, a = Num x /\ b = Num y /\ (x <= y)%Qc.
Proof.
  split.
  - destruct a as [x|], b as [y|]; unfold le; try discriminate.
    destruct (x ?= y)%Qc eqn:E; try discriminate;
      intros _; exists x, y;
      (split; [reflexivity|split; [reflexivity|]]);
      apply Qcle_alt; rewrite E; discriminate.
  - intros (x & y & -> & -> & H). unfold le.
    pose proof (proj1 (Qcle_alt x y) H) as E.
    now destruct (x ?= y)%Qc.
Qed.

Lemma le_refl_num (x : Qc) : le (Num x) (Num x) = true.
Proof. apply le_true. exists x, x. repeat split. apply Qcle_refl. Qed.

Lemma le_antisym (a b : number) : le a b = true -> le b a = true -> a = b.
Proof.
  rewrite !le_true. intros (x & y & -> & -> & H) (y' & x' & E1 & E2 & H').
  injection E1 as <-. injection E2 as <-. f_equal. now apply Qcle_antisym.
Qed.

Lemma lt_le (a b : number) : lt a b = true -> le a b = true.
Proof.
  rewrite lt_true, le_true. intros (x & y & -> & -> & H).
  exists x, y. repeat split. now apply Qclt_le_weak.
Qed.

(** [prev < m <= net] needs [prev < net]: the early return of the effect
    cuts off no crossing. *)
Lemma no_crossing_without_increase (prev net m : number) :
  le net prev = true -> lt prev m = true -> le m net = true -> False.
Proof.
  rewrite !le_true, lt_true.
  intros (n & p & -> & -> & H1) (p' & x & E1 & -> & H2) (x' & n' & E2 & E3 & H3).
  injection E1 as <-. injection E2 as <-. injection E3 as <-.
  apply (Qclt_not_le _ _ H2). now apply Qcle_trans with n.
Qed.

Lemma sameValueZero_eq (a b : number) : Milestones.sameValueZero a b = true <-> a = b.
Proof.
  destruct a as [x|], b as [y|]; unfold Milestones.sameValueZero;
    split; try discriminate; try reflexivity.
  - intros H. f_equal. now apply Qc_eq_bool_correct.
  - intros [= ->]. unfold Qc_eq_bool. now destruct (Qc_eq_dec y y).
Qed.

Lemma includes_In (xs : list number) (m : number) :
  Milestones.includes xs m = true <-> In m xs.
Proof.
  unfold Milestones.includes. rewrite existsb_exists. split.
  - intros (x & Hx & E). apply sameValueZero_eq in E. now subst.
  - intros H. exists m. split; [exact H|]. now apply sameValueZero_eq.
Qed.

Lemma includes_false (xs : list number) (m : number) :
  Milestones.includes xs m = false <-> ~ In m xs.
Proof.
  rewrite <- includes_In. now destruct (Milestones.includes xs m).
Qed.

(** ** The milestone detector *)

Section Detector.
Import Milestones.


Lemma scan_find (ms : list number) (prev net : number) (st : State) :
  scan ms prev net st =
  match find (test prev net st) ms with
  | Some m => (mkState (celebrated st ++ [m]) (Some m) (prevNetRef st), Some m)
  | None => (st, None)
  end.
Proof.
  induction ms as [|m ms IH]; cbn [scan find]; [reflexivity|].
  now destruct (test prev net st m).
Qed.

Lemma find_first {A : Type} (p : A -> bool) (l : list A) (x : A) :
  find p l = Some x ->
  exists l1 l2, l = l1 ++ x :: l2 /\ p x = true /\ Forall (fun y => p y = false) l1.
Proof.
  induction l as [|a l IH]; cbn [find]; [discriminate|].
  destruct (p a) eqn:E.
  - intros [= ->]. exists [], l. auto.
  - intros H. destruct (IH H) as (l1 & l2 & -> & Hx & Hl).
    exists (a :: l1), l2. auto.
Qed.

Lemma find_none_iff {A : Type} (p : A -> bool) (l : list A) :
  find p l = None <-> forall x, In x l -> p x = false.
Proof.
  split; [apply find_none|].
  induction l as [|a l IH]; cbn [find]; [reflexivity|].
  intros H. rewrite (H a (or_introl eq_refl)). apply IH.
  intros x Hx. apply H. now right.
Qed.

Lemma milestones_ascending :
  StronglySorted (fun a b => lt a b = true) SAVING_MILESTONES.
Proof.
  unfold SAVING_MILESTONES. cbn [map].
  repeat (apply SSorted_cons; [|repeat (apply Forall_cons; [reflexivity|]); apply Forall_nil]).
  apply SSorted_nil.
Qed.

Lemma milestones_numeric (m : number) : In m SAVING_MILESTONES -> isNaN m = false.
Proof.
  unfold SAVING_MILESTONES. cbn [map In].
  intros H. repeat (destruct H as [<-|H]; [reflexivity|]). destruct H.
Qed.

(** In an ascending list the first element that passes a test is below
    every other element that passes it. *)
Lemma first_is_lowest (p : number -> bool) (l l1 l2 : list number) (x y : number) :
  StronglySorted (fun a b => lt a b = true) l ->
  (forall m, In m l -> isNaN m = false) ->
  l = l1 ++ x :: l2 -> Forall (fun z => p z = false) l1 ->
  In y l -> p y = true -> le x y = true.
Proof.
  intros Hs Hn -> Hl Hy Hp.
  apply in_app_or in Hy. destruct Hy as [Hy|[<-|Hy]].
  - rewrite Forall_forall in Hl. rewrite (Hl y Hy) in Hp. discriminate.
  - assert (Hx : isNaN x = false) by (apply Hn, in_or_app; right; now left).
    destruct x; [apply le_refl_num|discriminate].
  - apply lt_le.
    induction l1 as [|a l1 IH]; cbn [app] in Hs.
    + apply StronglySorted_inv in Hs. destruct Hs as [_ Hall].
      rewrite Forall_forall in Hall. now apply Hall.
    + apply StronglySorted_inv in Hs. destruct Hs as [Hs _].
      apply IH; [|exact Hs|now inversion Hl].
      intros m Hm. apply Hn. now right.
Qed.

Lemma test_candidate (st : State) (net m : number) :
  In m SAVING_MILESTONES ->
  (test (prevNetRef st) net st m = true <-> Spec.candidate st net m).
Proof.
  intros Hin. unfold test, Spec.candidate, ge.
  rewrite !andb_true_iff, negb_true_iff, includes_false. tauto.
Qed.

(** The effect, as a search for the first threshold that passes the test:
    the early return changes nothing, since no threshold can pass the test
    when [net] has not increased. *)
Lemma effect_find (net : number) (st : State) :
  effect net st =
  match find (test (prevNetRef st) net st) SAVING_MILESTONES with
  | Some m => (mkState (celebrated st ++ [m]) (Some m) net, Some m)
  | None => (mkState (celebrated st) (toastMilestone st) net, None)
  end.
Proof.
  unfold effect. rewrite scan_find. cbn [celebrated prevNetRef].
  change (test (prevNetRef st) net (mkState (celebrated st) (toastMilestone st) net))
    with (test (prevNetRef st) net st).
  destruct (le net (prevNetRef st)) eqn:Hle; [|reflexivity].
  replace (find _ SAVING_MILESTONES) with (@None number); [reflexivity|].
  symmetry. apply find_none_iff. intros m _. unfold test.
  destruct (lt (prevNetRef st) m) eqn:E1; [|reflexivity].
  destruct (ge net m) eqn:E2; [|reflexivity].
  exfalso. exact (no_crossing_without_increase _ _ _ Hle E1 E2).
Qed.

(** The render that a celebration causes runs the effect again, with
    nothing to do: [prevNetRef] already holds [net]. *)
Lemma effect_again (net m : number) (cs : list number) (t : option number) :
  le m net = true ->
  effect net (mkState cs t net) = (mkState cs t net, None).
Proof.
  intros H. unfold effect. cbn [prevNetRef celebrated toastMilestone].
  apply le_true in H. destruct H as (x & n & _ & -> & _).
  now rewrite le_refl_num.
Qed.

Lemma observe_effect (net : number) (st : State) :
  observe net st = (fst (effect net st), events (snd (effect net st))).
Proof.
  unfold observe. rewrite effect_find.
  destruct (find _ SAVING_MILESTONES) as [m|] eqn:F; [|reflexivity].
  apply find_some in F. destruct F as [_ F]. unfold test in F.
  rewrite !andb_true_iff in F. destruct F as [[_ F] _].
  rewrite (effect_again net m); [reflexivity|exact F].
Qed.

Lemma observe_cases (net : number) (st : State) :
  (exists m, Spec.lowestCandidate st net m /\
             observe net st = (mkState (celebrated st ++ [m]) (Some m) net, [m]))
  \/ ((forall m, ~ Spec.candidate st net m) /\
      observe net st = (mkState (celebrated st) (toastMilestone st) net, [])).
Proof.
  rewrite observe_effect, effect_find.
  destruct (find _ SAVING_MILESTONES) as [m|] eqn:F.
  - left. exists m. split; [|reflexivity].
    pose proof (find_some _ _ F) as [Hin Ht].
    split; [now apply test_candidate|].
    intros m' Hc. destruct (find_first _ _ _ F) as (l1 & l2 & E & _ & Hl).
    apply (first_is_lowest (test (prevNetRef st) net st) SAVING_MILESTONES l1 l2);
      auto using milestones_ascending, milestones_numeric.
    + apply Hc.
    + apply test_candidate; [apply Hc|exact Hc].
  - right. split; [|reflexivity].
    intros m Hc. rewrite find_none_iff in F.
    pose proof (F m (proj1 Hc)) as Hf.
    apply (test_candidate st net m (proj1 Hc)) in Hc. congruence.
Qed.

Lemma lowestCandidate_unique (st : State) (net m m' : number) :
  Spec.lowestCandidate st net m -> Spec.lowestCandidate st net m' -> m = m'.
Proof.
  intros [C1 L1] [C2 L2]. apply le_antisym; auto.
Qed.

(** C1. An observation of [net] fires at most one event; it fires [m]
    exactly when [m] is the lowest threshold not yet celebrated with
    [prevNet < m <= net], which is then appended to [celebrated];
    [prevNetRef] becomes [net] in every case.  With the thresholds of the
    program (100, 250, 500, ...), the observations 0, 150, 400, 300, 600
    fire 100 at 150, 250 at 400, nothing at 300 and 500 at 600; after the
    jump from 0 to 300, which fires 100 alone, the rise to 600 fires 500. *)
Theorem milestone_one_event_lowest_crossed (net : number) (st : State) :
  let st' := fst (observe net st) in
  let fired := snd (observe net st) in
  (length fired <= 1)%nat /\
  (forall m, fired = [m] <-> Spec.lowestCandidate st net m) /\
  (fired = [] <-> forall m, ~ Spec.candidate st net m) /\
  celebrated st' = celebrated st ++ fired /\
  prevNetRef st' = net /\
  snd (session (ofZ 0) (map ofZ [150; 400; 300; 600]))
    = [[]; [ofZ 100]; [ofZ 250]; []; [ofZ 500]] /\
  snd (session (ofZ 0) (map ofZ [300; 600])) = [[]; [ofZ 100]; [ofZ 500]].
Proof.
  cbv zeta.
  destruct (observe_cases net st) as [(m0 & Hlow & ->)|[Hnone ->]];
    cbn [fst snd length celebrated prevNetRef].
  - split; [lia|]. split; [|split; [|split; [reflexivity|split; [reflexivity|]]]].
    + intros m. split.
      * now intros [= <-].
      * intros H. f_equal. exact (lowestCandidate_unique _ _ _ _ Hlow H).
    + split; [discriminate|]. intros H. destruct (H m0 (proj1 Hlow)).
    + split; vm_compute; reflexivity.
  - split; [lia|]. split; [|split; [|split; [|split; [reflexivity|]]]].
    + intros m. split; [discriminate|]. intros [H _]. destruct (Hnone m H).
    + now split.
    + now rewrite app_nil_r.
    + split; vm_compute; reflexivity.
Qed.

(** Over a whole run the celebrated list is the list of the events fired,
    in order, and it never repeats a threshold. *)
Lemma observeAll_celebrated (nets : list number) (st : State) :
  celebrated (fst (observeAll nets st))
  = celebrated st ++ concat (snd (observeAll nets st)).
Proof.
  revert st. induction nets as [|n nets IH]; intros st; cbn [observeAll].
  - cbn [fst snd concat]. now rewrite app_nil_r.
  - destruct (observe n st) as [st1 ev] eqn:E1.
    specialize (IH st1). destruct (observeAll nets st1) as [st2 evs].
    cbn [fst snd concat] in *. rewrite IH, app_assoc. f_equal.
    destruct (observe_cases n st) as [(m0 & _ & E)|[_ E]];
      rewrite E in E1; injection E1 as <- <-; cbn [celebrated];
      [reflexivity|now rewrite app_nil_r].
Qed.

Lemma observe_NoDup (net : number) (st : State) :
  NoDup (celebrated st) -> NoDup (celebrated (fst (observe net st))).
Proof.
  intros H.
  destruct (observe_cases net st) as [(m0 & [Hc _] & ->)|[_ ->]];
    cbn [fst celebrated]; [|exact H].
  apply NoDup_app; repeat split; auto.
  - apply NoDup_cons; [intros []|apply NoDup_nil].
  - intros x Hx [<-|[]]. now apply Hc.
Qed.

Lemma observeAll_NoDup (nets : list number) (st : State) :
  NoDup (celebrated st) -> NoDup (celebrated (fst (observeAll nets st))).
Proof.
  revert st. induction nets as [|n nets IH]; intros st H; cbn [observeAll].
  - exact H.
  - pose proof (observe_NoDup n st H) as H1.
    destruct (observe n st) as [st1 ev]. specialize (IH st1 H1).
    now destruct (observeAll nets st1).
Qed.

(** C5. A celebrated threshold stays celebrated and is never fired again:
    an observation keeps every element of [celebrated] and fires only a
    threshold outside it, so that over a whole session, whatever the
    values of [net], the thresholds fired are pairwise distinct and
    [celebrated] is exactly their list.  When net rises to 150, drops to
    50 and rises to 150 again, 100 is fired once. *)
Theorem milestone_never_refires (net0 : number) (nets : list number) :
  (forall net st m, In m (celebrated st) ->
      In m (celebrated (fst (observe net st))) /\ ~ In m (snd (observe net st))) /\
  NoDup (concat (snd (session net0 nets))) /\
  celebrated (fst (session net0 nets)) = concat (snd (session net0 nets)) /\
  snd (session (ofZ 0) (map ofZ [150; 50; 150])) = [[]; [ofZ 100]; []; []].
Proof.
  split; [|split; [|split]].
  - intros net st m Hm.
    destruct (observe_cases net st) as [(m0 & [Hc _] & ->)|[_ ->]];
      cbn [fst snd celebrated].
    + split; [apply in_or_app; now left|].
      intros [<-|[]]. now apply Hc.
    + split; [exact Hm|intros []].
  - unfold session.
    pose proof (observeAll_celebrated (net0 :: nets) (init net0)) as E.
    pose proof (observeAll_NoDup (net0 :: nets) (init net0)) as N.
    cbn [init celebrated app] in E, N. rewrite <- E. apply N, NoDup_nil.
  - unfold session.
    now rewrite (observeAll_celebrated (net0 :: nets) (init net0)).
  - vm_compute. reflexivity.
Qed.

(** Without an increase of [net] no event is fired, whatever thresholds
    [net] exceeds; in particular the mount of the hook fires nothing. *)
Lemma no_event_without_increase (net : number) (st : State) :
  le net (prevNetRef st) = true -> snd (observe net st) = [].
Proof.
  intros H. destruct (observe_cases net st) as [(m0 & [Hc _] & _)|[_ ->]];
    [|reflexivity].
  destruct Hc as (_ & H1 & H2 & _).
  destruct (no_crossing_without_increase _ _ _ H H1 H2).
Qed.

(** C4, evaluated on the dashboard.  A session opens on the empty list, so
    the hook is mounted with net 0; when the first fetch brings a balance
    of 300 saved in an earlier session, the effect sees a rise from 0 to
    300 and fires the threshold 100.  The hook mounted on 300 itself fires
    nothing. *)
Theorem first_snapshot_fires_lowest_milestone :
  snd (dashboardSession [[Tx.mk 1 income "300.00" "salary" "" "2024-01-05" "" ""]])
    = [[]; [ofZ 100]] /\
  snd (session (ofZ 300) []) = [[]].
Proof.
  split; vm_compute; reflexivity.
Qed.

End Detector.

(** ** The spending limits *)


Lemma lt_le_false (a b : number) : lt a b = true -> le b a = false.
Proof.
  intros H. destruct (le b a) eqn:E; [|reflexivity].
  apply lt_true in H. destruct H as (x & y & -> & -> & H).
  apply le_true in E. destruct E as (y' & x' & [= <-] & [= <-] & E).
  destruct (Qclt_not_le _ _ H E).
Qed.

Lemma le_lt_false (a b : number) : le a b = true -> lt b a = false.
Proof.
  intros H. destruct (lt b a) eqn:E; [|reflexivity].
  apply lt_le_false in E. congruence.
Qed.

Lemma le_trans (a b c : number) : le a b = true -> le b c = true -> le a c = true.
Proof.
  rewrite !le_true.
  intros (x & y & -> & -> & H1) (y' & z & [= <-] & -> & H2).
  exists x, z. split; [reflexivity|split; [reflexivity|]].
  now apply Qcle_trans with y.
Qed.

Section SpendingLimits.
Import Limits.

Lemma pctOf_positive_limit (spend limit : number) :
  le (ofZ 80) (pctOf spend limit) = true -> le limit (ofZ 0) = false.
Proof.
  unfold pctOf. destruct (gt limit (ofZ 0)) eqn:G.
  - intros _. now apply lt_le_false.
  - intros H. exfalso. revert H. now vm_compute.
Qed.

(** C6. With [pct] the percentage the hook computes ([spend / limit * 100]
    for a positive limit, 0 otherwise), the banner shows nothing (ok) when
    [pct < 80], the warning when [80 <= pct < 100] and the overrun when
    [pct >= 100]; a limit of 0 gives [pct = 0] and no banner whatever the
    spend.  Limit 100 with spend 85 warns at 85 percent; spend 100 is
    over. *)
Theorem limit_classification (spend limit : number) :
  let pct := pctOf spend limit in
  let banner := LimitBanner spend limit pct false in
  (forall now limits txs,
      let r := useSpendingLimits now limits txs in
      dailyPct r = pctOf (dailySpend r) (daily limits) /\
      weeklyPct r = pctOf (weeklySpend r) (weekly limits)) /\
  (lt pct (ofZ 80) = true -> banner = None) /\
  (le (ofZ 80) pct = true -> lt pct (ofZ 100) = true ->
     banner = Some (mkBanner false true)) /\
  (le (ofZ 100) pct = true -> banner = Some (mkBanner true false)) /\
  (limit = ofZ 0 -> pct = ofZ 0 /\ banner = None) /\
  pctOf (ofZ 85) (ofZ 100) = ofZ 85 /\
  LimitBanner (ofZ 85) (ofZ 100) (pctOf (ofZ 85) (ofZ 100)) false
    = Some (mkBanner false true) /\
  LimitBanner (ofZ 100) (ofZ 100) (pctOf (ofZ 100) (ofZ 100)) false
    = Some (mkBanner true false).
Proof.
  cbv zeta. split; [intros; split; reflexivity|].
  split; [|split; [|split; [|split]]].
  - intros H. unfold LimitBanner. rewrite H.
    now destruct (le limit (ofZ 0)).
  - intros H1 H2. unfold LimitBanner, ge.
    rewrite (pctOf_positive_limit _ _ H1), (le_lt_false _ _ H1), H1, H2.
    now rewrite (lt_le_false _ _ H2).
  - intros H.
    assert (H80 : le (ofZ 80) (pctOf spend limit) = true).
    { apply le_trans with (ofZ 100); [now vm_compute|exact H]. }
    unfold LimitBanner, ge.
    rewrite (pctOf_positive_limit _ _ H80), (le_lt_false _ _ H80), H80, H.
    now rewrite (le_lt_false _ _ H).
  - intros ->. split; reflexivity.
  - split; [js_eval|]. split; vm_compute; reflexivity.
Qed.

End SpendingLimits.

(** ** Maps in insertion order *)

Section MapFacts.
Context {V : Type}.
Implicit Types (m : list (string * V)) (k : string) (v : V).

Lemma get_set_eq m k v : JSMap.get (JSMap.set m k v) k = Some v.
Proof.
  induction m as [|[k' v'] m IH]; cbn [JSMap.set JSMap.get].
  - now rewrite String.eqb_refl.
  - destruct (String.eqb k' k) eqn:E; cbn [JSMap.get].
    + now rewrite String.eqb_refl.
    + now rewrite E.
Qed.

Lemma get_set_ne m k k' v :
  k <> k' -> JSMap.get (JSMap.set m k v) k' = JSMap.get m k'.
Proof.
  intros Hne. induction m as [|[k0 v0] m IH]; cbn [JSMap.set JSMap.get].
  - now rewrite (proj2 (String.eqb_neq k k') Hne).
  - destruct (String.eqb k0 k) eqn:E; cbn [JSMap.get].
    + apply String.eqb_eq in E. subst k0.
      now rewrite (proj2 (String.eqb_neq k k') Hne).
    + now rewrite IH.
Qed.

Lemma has_In m k : JSMap.has m k = true <-> In k (JSMap.keys m).
Proof.
  unfold JSMap.has, JSMap.keys.
  induction m as [|[k' v'] m IH]; cbn [JSMap.get map fst In].
  - split; [discriminate|tauto].
  - destruct (String.eqb k' k) eqn:E.
    + apply String.eqb_eq in E. tauto.
    + apply String.eqb_neq in E. rewrite IH. tauto.
Qed.

Lemma has_false m k : JSMap.has m k = false <-> ~ In k (JSMap.keys m).
Proof. rewrite <- has_In. now destruct (JSMap.has m k). Qed.

Lemma get_None m k : JSMap.get m k = None <-> ~ In k (JSMap.keys m).
Proof.
  rewrite <- has_false. unfold JSMap.has.
  destruct (JSMap.get m k); split; congruence.
Qed.

Lemma keys_set m k v :
  JSMap.keys (JSMap.set m k v)
  = if JSMap.has m k then JSMap.keys m else JSMap.keys m ++ [k].
Proof.
  unfold JSMap.has, JSMap.keys.
  induction m as [|[k' v'] m IH]; cbn [JSMap.set JSMap.get map fst app].
  - reflexivity.
  - destruct (String.eqb k' k) eqn:E; cbn [map fst].
    + apply String.eqb_eq in E. now subst.
    + rewrite IH. now destruct (JSMap.get m k).
Qed.

Lemma keys_set_present m k v :
  JSMap.has m k = true -> JSMap.keys (JSMap.set m k v) = JSMap.keys m.
Proof. intros H. now rewrite keys_set, H. Qed.

Lemma has_set_eq m k v : JSMap.has (JSMap.set m k v) k = true.
Proof. unfold JSMap.has. now rewrite get_set_eq. Qed.

End MapFacts.

(** ** The category order *)

Lemma filter_all_false {A : Type} (p : A -> bool) (l : list A) :
  (forall x, In x l -> p x = false) -> filter p l = [].
Proof.
  induction l as [|a l IH]; intros H; cbn [filter]; [reflexivity|].
  rewrite (H a (or_introl eq_refl)). apply IH. intros x Hx. apply H. now right.
Qed.

Lemma filter_twice {A : Type} (p q : A -> bool) (l : list A) :
  filter p (filter q l) = filter (fun x => q x && p x) l.
Proof.
  induction l as [|a l IH]; cbn [filter]; [reflexivity|].
  destruct (q a); cbn [filter andb]; [destruct (p a)|]; now rewrite IH.
Qed.

Section CategoryOrder.
Import Category.

Lemma includes_iff (xs : list string) (c : string) : includes xs c = true <-> In c xs.
Proof.
  unfold includes. rewrite existsb_exists. split.
  - intros (x & Hx & E). apply String.eqb_eq in E. now subst.
  - intros H. exists c. split; [exact H|apply String.eqb_refl].
Qed.

Lemma includes_not (xs : list string) (c : string) : includes xs c = false <-> ~ In c xs.
Proof. rewrite <- includes_iff. now destruct (includes xs c). Qed.

(** The second filter of the source tests membership in the filtered
    saved list; on the categories of the data that is membership in the
    saved order itself. *)
Lemma mergeWithObserved_eq (savedOrder observed : list string) :
  mergeWithObserved savedOrder observed
  = filter (fun c => includes observed c) savedOrder
    ++ filter (fun c => negb (includes savedOrder c)) observed.
Proof.
  unfold mergeWithObserved. f_equal. apply filter_ext_in. intros c Hc. f_equal.
  destruct (includes savedOrder c) eqn:E.
  - apply includes_iff. apply filter_In. split.
    + now apply includes_iff.
    + now apply includes_iff.
  - apply includes_not. intros H. apply filter_In in H. destruct H as [H _].
    apply includes_not in E. now apply E.
Qed.

Lemma mergeWithObserved_In (savedOrder observed : list string) (c : string) :
  In c (mergeWithObserved savedOrder observed) <-> In c observed.
Proof.
  rewrite mergeWithObserved_eq, in_app_iff, !filter_In, negb_true_iff,
    includes_iff, includes_not.
  destruct (in_dec string_dec c savedOrder); tauto.
Qed.

Lemma mergeWithObserved_NoDup (savedOrder observed : list string) :
  NoDup savedOrder -> NoDup observed -> NoDup (mergeWithObserved savedOrder observed).
Proof.
  intros Hs Ho. rewrite mergeWithObserved_eq.
  apply NoDup_app; repeat split; auto using NoDup_filter.
  intros c H1 H2. apply filter_In in H1, H2.
  destruct H1 as [H1 _], H2 as [_ H2].
  apply negb_true_iff, includes_not in H2. now apply H2.
Qed.

(** The saved categories that are present come first and in the saved
    order. *)
Lemma mergeWithObserved_saved_order (savedOrder observed : list string) :
  filter (fun c => includes savedOrder c) (mergeWithObserved savedOrder observed)
  = filter (fun c => includes observed c) savedOrder.
Proof.
  rewrite mergeWithObserved_eq, filter_app.
  rewrite (filter_all_false _ (filter _ observed)), app_nil_r.
  - rewrite filter_twice. apply filter_ext_in. intros c Hc.
    rewrite (proj2 (includes_iff savedOrder c) Hc). apply andb_true_r.
  - intros c Hc. apply filter_In in Hc. destruct Hc as [_ Hc].
    now apply negb_true_iff in Hc.
Qed.

Lemma includes_has {V : Type} (m : list (string * V)) (c : string) :
  includes (JSMap.keys m) c = JSMap.has m c.
Proof.
  destruct (JSMap.has m c) eqn:E.
  - now apply includes_iff, has_In.
  - now apply includes_not, has_false.
Qed.

Lemma keys_group_step (m : list (string * list Transaction)) (t : Transaction) :
  JSMap.keys (group_step m t)
  = if JSMap.has m (Tx.category t) then JSMap.keys m
    else JSMap.keys m ++ [Tx.category t].
Proof.
  unfold group_step. destruct (JSMap.has m (Tx.category t)) eqn:E.
  - unfold JSMap.has in E.
    destruct (JSMap.get m (Tx.category t)) eqn:G; [|discriminate].
    apply keys_set_present. unfold JSMap.has. now rewrite G.
  - rewrite get_set_eq, keys_set_present by apply has_set_eq.
    now rewrite keys_set, E.
Qed.

Lemma keys_fold_group (xs : list Transaction) (m : list (string * list Transaction)) :
  JSMap.keys (fold_left group_step xs m)
  = JSMap.keys m ++ Spec.firstSeen (JSMap.keys m) (map Tx.category xs).
Proof.
  revert m. induction xs as [|t xs IH]; intros m;
    cbn [fold_left map Spec.firstSeen].
  - now rewrite app_nil_r.
  - rewrite IH, keys_group_step, includes_has.
    destruct (JSMap.has m (Tx.category t)); [reflexivity|].
    now rewrite <- app_assoc.
Qed.

Lemma firstSeen_NoDup (xs seen : list string) :
  NoDup seen -> NoDup (seen ++ Spec.firstSeen seen xs).
Proof.
  revert seen. induction xs as [|x xs IH]; intros seen H; cbn [Spec.firstSeen].
  - now rewrite app_nil_r.
  - destruct (includes seen x) eqn:E; [now apply IH|].
    change (x :: Spec.firstSeen (seen ++ [x]) xs)
      with ([x] ++ Spec.firstSeen (seen ++ [x]) xs).
    rewrite app_assoc. apply IH.
    apply NoDup_app; repeat split; auto.
    + apply NoDup_cons; [intros []|apply NoDup_nil].
    + intros c Hc [<-|[]]. apply includes_not in E. now apply E.
Qed.

Lemma firstSeen_In (xs seen : list string) (c : string) :
  In c (seen ++ Spec.firstSeen seen xs) <-> In c seen \/ In c xs.
Proof.
  revert seen. induction xs as [|x xs IH]; intros seen; cbn [Spec.firstSeen In].
  - rewrite app_nil_r. tauto.
  - destruct (includes seen x) eqn:E.
    + rewrite IH. apply includes_iff in E.
      split; [tauto|]. intros [H|[<-|H]]; tauto.
    + change (x :: Spec.firstSeen (seen ++ [x]) xs)
        with ([x] ++ Spec.firstSeen (seen ++ [x]) xs).
      rewrite app_assoc, IH, in_app_iff. cbn [In]. tauto.
Qed.

(** The categories of the data are the keys of the grouping: each
    category of the active tab once, in the order of first occurrence. *)
Lemma grouped_keys (transactions : list Transaction) (activeTab : TxType) :
  JSMap.keys (grouped transactions activeTab)
  = Spec.firstSeen []
      (map Tx.category
         (filter (fun t => TxType_eqb (Tx.type t) activeTab) transactions)).
Proof. unfold grouped. now rewrite keys_fold_group. Qed.

(** C9, as amended: for a saved order without repetition and observed
    categories without repetition (the keys of the grouping are such),
    the merge is the saved order restricted to the observed categories
    followed by the observed categories that are not saved, in observed
    order; it holds each observed category exactly once and nothing
    else, and its saved categories stand in their saved order.  The keys
    of the grouping are the categories of the active tab in first-seen
    order.  [mergeWithObserved ["food","rent"] ["rent","food","gift"]] is
    [["food","rent","gift"]]. *)
Theorem merge_saved_with_observed (savedOrder observed : list string) :
  NoDup savedOrder -> NoDup observed ->
  let merged := mergeWithObserved savedOrder observed in
  merged = filter (fun c => includes observed c) savedOrder
           ++ filter (fun c => negb (includes savedOrder c)) observed /\
  (forall c, In c observed -> count_occ string_dec merged c = 1%nat) /\
  (forall c, In c merged -> In c observed) /\
  filter (fun c => includes savedOrder c) merged
    = filter (fun c => includes observed c) savedOrder /\
  (forall transactions activeTab,
      let fromData :=
        Spec.firstSeen []
          (map Tx.category
             (filter (fun t => TxType_eqb (Tx.type t) activeTab) transactions)) in
      orderedCategories transactions activeTab savedOrder
        = mergeWithObserved savedOrder fromData /\ NoDup fromData) /\
  mergeWithObserved ["food"; "rent"] ["rent"; "food"; "gift"]
    = ["food"; "rent"; "gift"].
Proof.
  intros Hs Ho. cbv zeta.
  split; [apply mergeWithObserved_eq|].
  split; [|split; [|split; [|split]]].
  - intros c Hc.
    pose proof (mergeWithObserved_NoDup _ _ Hs Ho) as N.
    rewrite (NoDup_count_occ string_dec) in N. specialize (N c).
    apply (mergeWithObserved_In savedOrder) in Hc.
    apply (count_occ_In string_dec) in Hc. lia.
  - intros c. apply mergeWithObserved_In.
  - apply mergeWithObserved_saved_order.
  - intros transactions activeTab. split.
    + unfold orderedCategories. now rewrite grouped_keys.
    + apply (firstSeen_NoDup _ []), NoDup_nil.
  - reflexivity.
Qed.

(** The theorem at the example of the specification. *)
Lemma merge_saved_with_observed_witness :
  let merged := mergeWithObserved ["food"; "rent"] ["rent"; "food"; "gift"] in
  merged = ["food"; "rent"; "gift"] /\
  (forall c, In c ["rent"; "food"; "gift"] -> count_occ string_dec merged c = 1%nat).
Proof.
  assert (N2 : NoDup ["food"; "rent"]).
  { repeat (apply NoDup_cons; [cbn [In]; intuition discriminate|]). apply NoDup_nil. }
  assert (N3 : NoDup ["rent"; "food"; "gift"]).
  { repeat (apply NoDup_cons; [cbn [In]; intuition discriminate|]). apply NoDup_nil. }
  pose proof (merge_saved_with_observed _ _ N2 N3) as H.
  split; [apply H|apply H].
Defined.

(** C9 as stated fails for a saved order that repeats a category: the
    merge repeats it too. *)
Lemma merge_repeats_repeated_saved_category :
  In "food" ["food"] /\
  count_occ string_dec (mergeWithObserved ["food"; "food"] ["food"]) "food" <> 1%nat.
Proof. split; [now left|]. vm_compute. discriminate. Qed.

End CategoryOrder.

(** ** The persisted filter fields *)

Section FilterStore.
Import Filters.

Lemma persist_lookup_same (k old new : string) (store : gmap string string) :
  persist k old new store !! k
  = if String.eqb old new then store !! k else Some new.
Proof.
  unfold persist. destruct (String.eqb old new); [reflexivity|].
  apply lookup_insert_eq.
Qed.

Lemma persist_lookup_other (k k' old new : string) (store : gmap string string) :
  k <> k' -> persist k old new store !! k' = store !! k'.
Proof.
  intros H. unfold persist. destruct (String.eqb old new); [reflexivity|].
  now apply lookup_insert_ne.
Qed.

(** C10, evaluated.  The click empties the four fields and removes the
    four entries, and the render that follows runs the persisting effect
    of every field whose value changed, which writes the empty string
    back: a filter that was set ends as an entry holding [""], only a
    filter that was already empty ends absent.  With the type filter set
    to ["income"], the storage ends with ["clarity:filterType"] bound to
    the empty string. *)
Theorem clear_filters_rewrites_empty_entries (st : State) :
  let st' := clearFilters st in
  (filterType st' = "" /\ filterCategory st' = "" /\
   filterFrom st' = "" /\ filterTo st' = "") /\
  sessionStorage st' !! kType = afterClear (filterType st) /\
  sessionStorage st' !! kCategory = afterClear (filterCategory st) /\
  sessionStorage st' !! kFrom = afterClear (filterFrom st) /\
  sessionStorage st' !! kTo = afterClear (filterTo st) /\
  (let before :=
     mkState "income" "" "" ""
       (<[kType := "income"]> (sessionStorage (mount ∅))) in
   clearVisible before = true /\
   sessionStorage (clearFilters before) !! kType = Some "" /\
   sessionStorage (clearFilters before) !! kCategory = None).
Proof.
  cbv zeta. split; [now repeat split|].
  unfold clearFilters, runEffects, clearClick, afterClear.
  cbn [sessionStorage filterType filterCategory filterFrom filterTo].
  split; [|split; [|split; [|split]]].
  - rewrite !persist_lookup_other by discriminate.
    rewrite persist_lookup_same.
    destruct (String.eqb (filterType st) ""); [|reflexivity].
    rewrite !lookup_delete_ne by discriminate. apply lookup_delete_eq.
  - rewrite !persist_lookup_other by discriminate.
    rewrite persist_lookup_same, persist_lookup_other by discriminate.
    destruct (String.eqb (filterCategory st) ""); [|reflexivity].
    rewrite !lookup_delete_ne by discriminate. apply lookup_delete_eq.
  - rewrite !persist_lookup_other by discriminate.
    rewrite persist_lookup_same, !persist_lookup_other by discriminate.
    destruct (String.eqb (filterFrom st) ""); [|reflexivity].
    rewrite !lookup_delete_ne by discriminate. apply lookup_delete_eq.
  - rewrite persist_lookup_same, !persist_lookup_other by discriminate.
    destruct (String.eqb (filterTo st) ""); [|reflexivity].
    apply lookup_delete_eq.
  - split; [reflexivity|]. split.
    + rewrite !persist_lookup_other by discriminate.
      now rewrite persist_lookup_same.
    + rewrite !persist_lookup_other by discriminate.
      rewrite persist_lookup_same, persist_lookup_other by discriminate.
      cbn [String.eqb]. rewrite !lookup_delete_ne by discriminate.
      apply lookup_delete_eq.
Qed.

End FilterStore.

(** ** The order of strings *)

Section StringOrder.

Lemma compare_refl (a : string) : String.compare a a = Eq.
Proof.
  destruct (String.compare a a) eqn:E; [reflexivity| |];
    pose proof (String.compare_antisym a a) as H; rewrite E in H; discriminate.
Qed.

Lemma compare_Gt_Lt (a b : string) : String.compare a b = Gt <-> String.compare b a = Lt.
Proof.
  rewrite (String.compare_antisym b a).
  destruct (String.compare a b); cbn [CompOpp]; split; intros H;
    try discriminate H; reflexivity.
Qed.


Lemma sle_cases (a b : string) : sle a b <-> slt a b \/ a = b.
Proof.
  unfold sle, slt. split.
  - destruct (String.compare a b) eqn:E; [|now left|congruence].
    right. now apply String.compare_eq_iff.
  - intros [H| ->]; [rewrite H|rewrite compare_refl]; discriminate.
Qed.

Lemma sle_refl (a : string) : sle a a.
Proof. apply sle_cases. now right. Qed.



Lemma not_sle_slt (a b : string) : ~ sle a b -> slt b a.
Proof.
  unfold sle, slt. intros H. apply compare_Gt_Lt.
  destruct (String.compare a b); try reflexivity; exfalso; apply H; discriminate.
Qed.

Lemma slt_irrefl (a : string) : ~ slt a a.
Proof. unfold slt. rewrite compare_refl. discriminate. Qed.

Lemma str_le_sle (a b : string) : str_le a b = true <-> sle a b.
Proof.
  unfold str_le, sle. destruct (String.compare a b); split; intros H;
    try discriminate H; try reflexivity; try discriminate.
  now contradiction H.
Qed.

Lemma str_ge_sle (a b : string) : str_ge a b = true <-> sle b a.
Proof.
  unfold str_ge, sle. rewrite (String.compare_antisym a b).
  destruct (String.compare b a); cbn [CompOpp]; split; intros H;
    try discriminate H; try reflexivity; try discriminate.
  now contradiction H.
Qed.


End StringOrder.

(** ** The stable sort *)

Section SortFacts.
Context {A : Type} (cmp : A -> A -> number).

Lemma sort_insert_perm (x : A) (l : list A) : Permutation (sort_insert cmp x l) (x :: l).
Proof.
  induction l as [|y l IH]; cbn [sort_insert]; [reflexivity|].
  destruct (gt (cmp x y) (ofZ 0)); [|reflexivity].
  rewrite IH. apply perm_swap.
Qed.

Lemma Array_sort_perm (l : list A) : Permutation (Array_sort cmp l) l.
Proof.
  induction l as [|x l IH]; cbn [Array_sort fold_right]; [reflexivity|].
  fold (Array_sort cmp l). rewrite sort_insert_perm. now constructor.
Qed.

(** For a comparator that reads a total preorder [R] (greater means "not
    below"), the result is sorted. *)
Context (R : A -> A -> Prop).
Hypothesis R_trans : forall a b c, R a b -> R b c -> R a c.
Hypothesis cmp_gt : forall a b, gt (cmp a b) (ofZ 0) = true -> R b a.
Hypothesis cmp_not_gt : forall a b, gt (cmp a b) (ofZ 0) = false -> R a b.



End SortFacts.

(** ** The time series *)

Section TimeSeries.

Lemma area_step_eq (m : list (string * Area.Bucket)) (t : Transaction) :
  area_step m t =
  match JSMap.get m (Tx.date t) with
  | Some e => JSMap.set m (Tx.date t) (upd t e)
  | None => JSMap.set (JSMap.set m (Tx.date t) zero) (Tx.date t) (upd t zero)
  end.
Proof.
  unfold area_step, JSMap.has.
  destruct (JSMap.get m (Tx.date t)) as [e|] eqn:G.
  - now rewrite G.
  - now rewrite get_set_eq.
Qed.

Lemma area_step_get_same (m : list (string * Area.Bucket)) (t : Transaction) :
  JSMap.get (area_step m t) (Tx.date t)
  = Some (upd t (match JSMap.get m (Tx.date t) with Some e => e | None => zero end)).
Proof.
  rewrite area_step_eq.
  destruct (JSMap.get m (Tx.date t)); apply get_set_eq.
Qed.

Lemma area_step_get_other (m : list (string * Area.Bucket)) (t : Transaction) (d : string) :
  Tx.date t <> d -> JSMap.get (area_step m t) d = JSMap.get m d.
Proof.
  intros H. rewrite area_step_eq.
  destruct (JSMap.get m (Tx.date t)); now rewrite !get_set_ne.
Qed.

Lemma keys_area_step (m : list (string * Area.Bucket)) (t : Transaction) :
  JSMap.keys (area_step m t)
  = if JSMap.has m (Tx.date t) then JSMap.keys m else JSMap.keys m ++ [Tx.date t].
Proof.
  rewrite area_step_eq. unfold JSMap.has at 1.
  destruct (JSMap.get m (Tx.date t)) as [e|] eqn:G.
  - apply keys_set_present. unfold JSMap.has. now rewrite G.
  - rewrite keys_set_present by apply has_set_eq.
    rewrite keys_set. unfold JSMap.has. now rewrite G.
Qed.

Lemma keys_fold_area (xs : list Transaction) (m : list (string * Area.Bucket)) :
  JSMap.keys (fold_left area_step xs m)
  = JSMap.keys m ++ Spec.firstSeen (JSMap.keys m) (map Tx.date xs).
Proof.
  revert m. induction xs as [|t xs IH]; intros m;
    cbn [fold_left map Spec.firstSeen].
  - now rewrite app_nil_r.
  - rewrite IH, keys_area_step, includes_has.
    destruct (JSMap.has m (Tx.date t)); [reflexivity|].
    now rewrite <- app_assoc.
Qed.



Lemma areaMap_keys (transactions : list Transaction) :
  JSMap.keys (areaMap transactions)
  = Spec.firstSeen []
      (map Tx.date
         (Array_sort (fun a b => localeCompare (Tx.date a) (Tx.date b)) transactions)).
Proof. unfold areaMap. now rewrite keys_fold_area. Qed.



(** *** The bucket of a date *)

Lemma onDate_same (ty : TxType) (t : Transaction) :
  Spec.onDate ty (Tx.date t) t = TxType_eqb (Tx.type t) ty.
Proof. unfold Spec.onDate. now rewrite String.eqb_refl, andb_true_r. Qed.

Lemma onDate_other (ty : TxType) (d : string) (t : Transaction) :
  Tx.date t <> d -> Spec.onDate ty d t = false.
Proof.
  intros H. unfold Spec.onDate.
  now rewrite (proj2 (String.eqb_neq _ _) H), andb_false_r.
Qed.

Lemma upd_sums (t : Transaction) (e : Area.Bucket) (xs : list Transaction) :
  Area.mkBucket
    (Area.b_income (upd t e) + Spec.sumWhere (Spec.onDate income (Tx.date t)) xs)%js
    (Area.b_expense (upd t e) + Spec.sumWhere (Spec.onDate expense (Tx.date t)) xs)%js
  = Area.mkBucket
      (Area.b_income e + Spec.sumWhere (Spec.onDate income (Tx.date t)) (t :: xs))%js
      (Area.b_expense e + Spec.sumWhere (Spec.onDate expense (Tx.date t)) (t :: xs))%js.
Proof.
  cbn [Spec.sumWhere]. rewrite !onDate_same. unfold upd.
  destruct (Tx.type t); cbn [TxType_eqb Area.b_income Area.b_expense];
    now rewrite add_assoc.
Qed.

Lemma fold_area_get (xs : list Transaction) (m : list (string * Area.Bucket)) (d : string) :
  JSMap.get (fold_left area_step xs m) d =
  match JSMap.get m d with
  | Some e =>
      Some (Area.mkBucket
              (Area.b_income e + Spec.sumWhere (Spec.onDate income d) xs)%js
              (Area.b_expense e + Spec.sumWhere (Spec.onDate expense d) xs)%js)
  | None =>
      if existsb (fun t => String.eqb (Tx.date t) d) xs
      then Some (Spec.bucketOf d xs) else None
  end.
Proof.
  revert m. induction xs as [|t xs IH]; intros m; cbn [fold_left existsb].
  - destruct (JSMap.get m d) as [[i e]|]; [|reflexivity].
    cbn [Spec.sumWhere Area.b_income Area.b_expense]. now rewrite !add_0_r.
  - rewrite IH. destruct (String.eqb (Tx.date t) d) eqn:E.
    + apply String.eqb_eq in E. subst d.
      rewrite area_step_get_same, upd_sums. cbn [orb].
      destruct (JSMap.get m (Tx.date t)) as [e|]; [reflexivity|].
      unfold Spec.bucketOf, zero. cbn [Area.b_income Area.b_expense].
      now rewrite !add_0_l.
    + apply String.eqb_neq in E.
      rewrite (area_step_get_other m t d E). cbn [orb Spec.sumWhere].
      unfold Spec.bucketOf. cbn [Spec.sumWhere].
      now rewrite !(onDate_other _ d t E).
Qed.

(** The bucket that [buildAreaData] builds for a date holds, per type,
    the sum of the amounts of the records of that date; there is a bucket
    for exactly the dates that occur. *)
Lemma areaMap_get (transactions : list Transaction) (d : string) :
  JSMap.get (areaMap transactions) d =
  if existsb (fun t => String.eqb (Tx.date t) d) transactions
  then Some (Spec.bucketOf d transactions) else None.
Proof.
  unfold areaMap. rewrite fold_area_get. cbn [JSMap.get].
  set (sorted := Array_sort _ transactions).
  assert (P : Permutation sorted transactions) by apply Array_sort_perm.
  replace (existsb (fun t => String.eqb (Tx.date t) d) sorted)
    with (existsb (fun t => String.eqb (Tx.date t) d) transactions).
  - unfold Spec.bucketOf. now rewrite !(sumWhere_perm _ _ _ P).
  - apply eq_true_iff_eq. rewrite !existsb_exists.
    split; intros (t & Ht & E); exists t; split; auto.
    + exact (Permutation_in _ (Permutation_sym P) Ht).
    + exact (Permutation_in _ P Ht).
Qed.

End TimeSeries.

(** ** The category breakdown *)

Section PieData.

Lemma pie_step_get_same (m : list (string * number)) (t : Transaction) :
  JSMap.get (pie_step m t) (Tx.category t)
  = Some (match JSMap.get m (Tx.category t) with Some v => v | None => ofZ 0 end
          + parseFloat (Tx.amount t))%js.
Proof. apply get_set_eq. Qed.

Lemma pie_step_get_other (m : list (string * number)) (t : Transaction) (c : string) :
  Tx.category t <> c -> JSMap.get (pie_step m t) c = JSMap.get m c.
Proof. intros H. now apply get_set_ne. Qed.

Lemma keys_pie_step (m : list (string * number)) (t : Transaction) :
  JSMap.keys (pie_step m t)
  = if JSMap.has m (Tx.category t) then JSMap.keys m
    else JSMap.keys m ++ [Tx.category t].
Proof. apply keys_set. Qed.

Lemma keys_fold_pie (xs : list Transaction) (m : list (string * number)) :
  JSMap.keys (fold_left pie_step xs m)
  = JSMap.keys m ++ Spec.firstSeen (JSMap.keys m) (map Tx.category xs).
Proof.
  revert m. induction xs as [|t xs IH]; intros m;
    cbn [fold_left map Spec.firstSeen].
  - now rewrite app_nil_r.
  - rewrite IH, keys_pie_step, includes_has.
    destruct (JSMap.has m (Tx.category t)); [reflexivity|].
    now rewrite <- app_assoc.
Qed.

Lemma pieMap_keys_NoDup (transactions : list Transaction) :
  NoDup (JSMap.keys (pieMap transactions)).
Proof.
  unfold pieMap. rewrite keys_fold_pie. apply (firstSeen_NoDup _ []), NoDup_nil.
Qed.

Lemma fold_pie_get (xs : list Transaction) (m : list (string * number)) (c : string) :
  JSMap.get (fold_left pie_step xs m) c =
  match JSMap.get m c with
  | Some v => Some (v + Spec.sumWhere (fun t => String.eqb (Tx.category t) c) xs)%js
  | None =>
      if existsb (fun t => String.eqb (Tx.category t) c) xs
      then Some (Spec.sumWhere (fun t => String.eqb (Tx.category t) c) xs)
      else None
  end.
Proof.
  revert m. induction xs as [|t xs IH]; intros m;
    cbn [fold_left existsb Spec.sumWhere].
  - destruct (JSMap.get m c); [now rewrite add_0_r|reflexivity].
  - rewrite IH. destruct (String.eqb (Tx.category t) c) eqn:E.
    + apply String.eqb_eq in E. subst c. rewrite pie_step_get_same. cbn [orb].
      destruct (JSMap.get m (Tx.category t)).
      * now rewrite add_assoc.
      * now rewrite add_0_l.
    + apply String.eqb_neq in E. now rewrite (pie_step_get_other m t c E).
Qed.

Lemma sumWhere_filter (p q : Transaction -> bool) (xs : list Transaction) :
  Spec.sumWhere q (filter p xs) = Spec.sumWhere (fun t => p t && q t) xs.
Proof.
  induction xs as [|t xs IH]; cbn [filter Spec.sumWhere]; [reflexivity|].
  destruct (p t); cbn [Spec.sumWhere andb]; now rewrite IH.
Qed.

Lemma existsb_filter {A : Type} (p q : A -> bool) (xs : list A) :
  existsb q (filter p xs) = existsb (fun t => p t && q t) xs.
Proof.
  induction xs as [|t xs IH]; cbn [filter existsb]; [reflexivity|].
  destruct (p t); cbn [existsb andb orb]; now rewrite IH.
Qed.

(** The value that [buildPieData] accumulates for a category is the sum
    of the amounts of its expenses; there is a value for exactly the
    categories that have an expense. *)
Lemma pieMap_get (transactions : list Transaction) (c : string) :
  JSMap.get (pieMap transactions) c =
  if existsb (Spec.inCategory expense c) transactions
  then Some (Spec.sumWhere (Spec.inCategory expense c) transactions) else None.
Proof.
  unfold pieMap. rewrite fold_pie_get. cbn [JSMap.get].
  now rewrite existsb_filter, sumWhere_filter.
Qed.

Lemma get_In {V : Type} (m : list (string * V)) (k : string) (v : V) :
  JSMap.get m k = Some v -> In (k, v) m.
Proof.
  induction m as [|[k' v'] m IH]; cbn [JSMap.get]; [discriminate|].
  destruct (String.eqb k' k) eqn:E.
  - apply String.eqb_eq in E. intros [= ->]. subst. now left.
  - intros H. right. now apply IH.
Qed.

Lemma buildPieData_In (transactions : list Transaction) (c : string) (v : number) :
  JSMap.get (pieMap transactions) c = Some v ->
  In (Pie.mkSlice c (round2 v)) (buildPieData transactions).
Proof.
  intros H. unfold buildPieData.
  apply (Permutation_in _ (Permutation_sym (Array_sort_perm _ _))).
  apply in_map_iff. exists (c, v). split; [reflexivity|now apply get_In].
Qed.

End PieData.

(** ** Malformed amounts *)

Section Malformed.

Variables (before after : list Transaction) (bad : Transaction).
Hypothesis bad_amount : parseFloat (Tx.amount bad) = NaN.

Lemma sumWhere_poisoned (p : Transaction -> bool) :
  p bad = true -> Spec.sumWhere p (before ++ bad :: after) = NaN.
Proof.
  intros H. rewrite sumWhere_app. cbn [Spec.sumWhere].
  now rewrite H, bad_amount, add_NaN_l, add_NaN_r.
Qed.

Lemma sumWhere_untouched (p : Transaction -> bool) :
  p bad = false ->
  Spec.sumWhere p (before ++ bad :: after) = Spec.sumWhere p (before ++ after).
Proof.
  intros H. rewrite !sumWhere_app. cbn [Spec.sumWhere]. now rewrite H.
Qed.

Lemma existsb_untouched (p : Transaction -> bool) :
  p bad = false ->
  existsb p (before ++ bad :: after) = existsb p (before ++ after).
Proof.
  intros H. rewrite !existsb_app. cbn [existsb]. now rewrite H.
Qed.

Lemma existsb_found (p : Transaction -> bool) :
  p bad = true -> existsb p (before ++ bad :: after) = true.
Proof.
  intros H. rewrite existsb_app. cbn [existsb]. rewrite H.
  now rewrite orb_true_r.
Qed.

End Malformed.

Lemma opposite_type (ty : TxType) :
  TxType_eqb ty (match ty with income => expense | expense => income end) = false.
Proof. now destruct ty. Qed.

Lemma TxType_eqb_refl (ty : TxType) : TxType_eqb ty ty = true.
Proof. now destruct ty. Qed.

Lemma total_of_type (ty : TxType) (transactions : list Transaction) :
  match ty with
  | income => totalIncome transactions
  | expense => totalExpense transactions
  end = Spec.sumOfType ty transactions.
Proof. destruct ty; apply sumAmounts_filter. Qed.

(** The sums of a list that holds a record whose amount reads as [NaN]. *)
Lemma poisoned_sums
    (before after : list Transaction) (bad : Transaction) :
  parseFloat (Tx.amount bad) = NaN ->
  let txs := before ++ bad :: after in
  let rest := before ++ after in
  let other := match Tx.type bad with income => expense | expense => income end in
  Spec.sumOfType (Tx.type bad) txs = NaN /\
  Spec.sumOfType other txs = Spec.sumOfType other rest /\
  match Tx.type bad with
  | income => totalIncome txs = NaN /\ totalExpense txs = totalExpense rest
  | expense => totalExpense txs = NaN /\ totalIncome txs = totalIncome rest
  end /\
  net txs = NaN /\
  JSMap.get (areaMap txs) (Tx.date bad)
    = Some (match Tx.type bad with
            | income => Area.mkBucket NaN (Spec.sumWhere (Spec.onDate expense (Tx.date bad)) rest)
            | expense => Area.mkBucket (Spec.sumWhere (Spec.onDate income (Tx.date bad)) rest) NaN
            end) /\
  (forall d, d <> Tx.date bad -> JSMap.get (areaMap txs) d = JSMap.get (areaMap rest) d) /\
  match Tx.type bad with
  | income => pieMap txs = pieMap rest
  | expense =>
      JSMap.get (pieMap txs) (Tx.category bad) = Some NaN /\
      In (Pie.mkSlice (Tx.category bad) NaN) (buildPieData txs)
  end /\
  (forall c, c <> Tx.category bad ->
             JSMap.get (pieMap txs) c = JSMap.get (pieMap rest) c).
Proof.
  intros Hbad. cbv zeta.
  assert (T1 : Spec.sumOfType (Tx.type bad) (before ++ bad :: after) = NaN).
  { apply sumWhere_poisoned; [exact Hbad|apply TxType_eqb_refl]. }
  assert (T2 : forall ty, TxType_eqb (Tx.type bad) ty = false ->
               Spec.sumOfType ty (before ++ bad :: after)
               = Spec.sumOfType ty (before ++ after)).
  { intros ty H. now apply sumWhere_untouched. }
  split; [exact T1|]. split; [apply T2, opposite_type|].
  split; [|split; [|split; [|split; [|split]]]].
  - destruct (Tx.type bad) eqn:Ty;
      rewrite !(total_of_type income), !(total_of_type expense);
      (split; [exact T1|now apply T2]).
  - unfold net. rewrite (total_of_type income), (total_of_type expense).
    destruct (Tx.type bad); rewrite T1; [apply sub_NaN_l|apply sub_NaN_r].
  - rewrite areaMap_get, existsb_found by apply String.eqb_refl.
    unfold Spec.bucketOf. f_equal.
    destruct (Tx.type bad) eqn:Ty.
    + rewrite sumWhere_poisoned, sumWhere_untouched; auto;
        unfold Spec.onDate; now rewrite Ty, ?String.eqb_refl.
    + rewrite sumWhere_untouched, (sumWhere_poisoned _ _ _ Hbad); auto;
        unfold Spec.onDate; now rewrite Ty, ?String.eqb_refl.
  - intros d Hd. rewrite !areaMap_get.
    assert (E : String.eqb (Tx.date bad) d = false)
      by (apply String.eqb_neq; congruence).
    rewrite existsb_untouched by exact E.
    unfold Spec.bucketOf.
    rewrite !sumWhere_untouched; [reflexivity| |];
      unfold Spec.onDate; now rewrite E, andb_false_r.
  - destruct (Tx.type bad) eqn:Ty.
    + unfold pieMap. rewrite !filter_app. cbn [filter]. now rewrite Ty.
    + assert (G : JSMap.get (pieMap (before ++ bad :: after)) (Tx.category bad) = Some NaN).
      { assert (I : Spec.inCategory expense (Tx.category bad) bad = true).
        { unfold Spec.inCategory. now rewrite Ty, String.eqb_refl. }
        now rewrite pieMap_get, existsb_found, sumWhere_poisoned. }
      split; [exact G|]. exact (buildPieData_In _ _ _ G).
  - intros c Hc. rewrite !pieMap_get.
    assert (E : Spec.inCategory expense c bad = false).
    { unfold Spec.inCategory.
      rewrite (proj2 (String.eqb_neq (Tx.category bad) c)) by congruence.
      apply andb_false_r. }
    now rewrite existsb_untouched, sumWhere_untouched.
Qed.

(** ** ISO dates and the calendar *)

Section IsoDates.

Lemma digit_char_compare (a b : Z) :
  0 <= a <= 9 -> 0 <= b <= 9 ->
  Ascii.compare (digit_char a) (digit_char b) = (a ?= b).
Proof.
  intros Ha Hb.
  assert (Ea : a = 0 \/ a = 1 \/ a = 2 \/ a = 3 \/ a = 4 \/ a = 5 \/ a = 6
               \/ a = 7 \/ a = 8 \/ a = 9) by lia.
  assert (Eb : b = 0 \/ b = 1 \/ b = 2 \/ b = 3 \/ b = 4 \/ b = 5 \/ b = 6
               \/ b = 7 \/ b = 8 \/ b = 9) by lia.
  repeat (destruct Ea as [->|Ea]); try subst a;
    repeat (destruct Eb as [->|Eb]); try subst b; reflexivity.
Qed.

Lemma compare_digit_cons (a b : Z) (s t : string) :
  0 <= a <= 9 -> 0 <= b <= 9 ->
  String.compare (String (digit_char a) s) (String (digit_char b) t)
  = match a ?= b with Eq => String.compare s t | r => r end.
Proof.
  intros Ha Hb. cbn [String.compare]. now rewrite digit_char_compare.
Qed.

Lemma compare_hyphen_cons (s t : string) :
  String.compare (String "-" s) (String "-" t) = String.compare s t.
Proof. reflexivity. Qed.

Lemma digit_range (n k : Z) : 0 <= n / k mod 10 <= 9.
Proof. pose proof (Z.mod_pos_bound (n / k) 10). lia. Qed.

Lemma digit_range0 (n : Z) : 0 <= n mod 10 <= 9.
Proof. pose proof (Z.mod_pos_bound n 10). lia. Qed.

Lemma append_cons (c : ascii) (s t : string) :
  (String c s ++ t)%string = String c (s ++ t)%string.
Proof. reflexivity. Qed.

Lemma append_empty (t : string) : ("" ++ t)%string = t.
Proof. reflexivity. Qed.

Lemma append_empty_r (s : string) : (s ++ "")%string = s.
Proof.
  induction s as [|c s IH]; [reflexivity|]. now rewrite append_cons, IH.
Qed.

Lemma compare_pad2 (a b : Z) (s t : string) :
  0 <= a < 100 -> 0 <= b < 100 ->
  String.compare (pad2 a ++ s)%string (pad2 b ++ t)%string
  = match a ?= b with Eq => String.compare s t | r => r end.
Proof.
  intros Ha Hb. unfold pad2. rewrite !append_cons, !append_empty.
  rewrite !compare_digit_cons by (apply digit_range || apply digit_range0).
  destruct (Z.compare_spec (a / 10 mod 10) (b / 10 mod 10)) as [E1|E1|E1];
    destruct (Z.compare_spec (a mod 10) (b mod 10)) as [E2|E2|E2];
    destruct (Z.compare_spec a b) as [E|E|E]; try reflexivity; exfalso;
    revert E1 E2 E; Z.to_euclidean_division_equations; lia.
Qed.

Lemma compare_pad4 (a b : Z) (s t : string) :
  0 <= a <= 9999 -> 0 <= b <= 9999 ->
  String.compare (pad4 a ++ s)%string (pad4 b ++ t)%string
  = match a ?= b with Eq => String.compare s t | r => r end.
Proof.
  intros Ha Hb. unfold pad4, pad2. rewrite !append_cons, !append_empty.
  rewrite !compare_digit_cons by (apply digit_range || apply digit_range0).
  destruct (Z.compare_spec (a / 1000 mod 10) (b / 1000 mod 10)) as [E1|E1|E1];
    destruct (Z.compare_spec (a / 100 mod 10) (b / 100 mod 10)) as [E2|E2|E2];
    destruct (Z.compare_spec (a / 10 mod 10) (b / 10 mod 10)) as [E3|E3|E3];
    destruct (Z.compare_spec (a mod 10) (b mod 10)) as [E4|E4|E4];
    destruct (Z.compare_spec a b) as [E|E|E]; try reflexivity; exfalso;
    revert E1 E2 E3 E4 E; Z.to_euclidean_division_equations; lia.
Qed.

(** On dates with four-digit years the order of the ISO strings is the
    order of the dates. *)
Lemma isoDate_compare (a b : civil) :
  validCivil a -> validCivil b ->
  String.compare (isoDate a) (isoDate b) = civilCompare a b.
Proof.
  intros (Hy & Hm & Hd) (Hy' & Hm' & Hd'). unfold isoDate, civilCompare.
  rewrite compare_pad4 by lia.
  destruct (year a ?= year b); try reflexivity.
  rewrite !(append_cons "-" ""), !append_empty, compare_hyphen_cons.
  rewrite compare_pad2 by lia.
  destruct (month a ?= month b); try reflexivity.
  rewrite compare_hyphen_cons.
  rewrite <- (append_empty_r (pad2 (day a))).
  rewrite <- (append_empty_r (pad2 (day b))).
  rewrite compare_pad2 by lia.
  now destruct (day a ?= day b).
Qed.


Lemma civilCompare_key (a b : civil) :
  1 <= month a <= 12 -> 1 <= day a <= 31 ->
  1 <= month b <= 12 -> 1 <= day b <= 31 ->
  civilCompare a b = (key a ?= key b).
Proof.
  intros Hm Hd Hm' Hd'. unfold civilCompare, key.
  destruct (Z.compare_spec (year a) (year b));
    destruct (Z.compare_spec (month a) (month b));
    destruct (Z.compare_spec (day a) (day b));
    symmetry;
    first [apply Z.compare_eq_iff|apply Z.compare_lt_iff|apply Z.compare_gt_iff];
    lia.
Qed.

Lemma days_in_month_range (y m : Z) : 28 <= days_in_month y m <= 31.
Proof.
  unfold days_in_month.
  destruct (m =? 2); [destruct (is_leap y); lia|].
  destruct ((m =? 4) || (m =? 6) || (m =? 9) || (m =? 11)); lia.
Qed.

Lemma next_day_wellFormed (c : civil) :
  wellFormed c -> wellFormed (next_day c) /\ key c < key (next_day c).
Proof.
  intros (Hy & Hm & Hd). unfold next_day, wellFormed, key.
  pose proof (days_in_month_range (year c) (month c)).
  destruct (day c <? days_in_month (year c) (month c)) eqn:E1.
  - apply Z.ltb_lt in E1. cbn [year month day]. lia.
  - destruct (month c <? 12) eqn:E2; cbn [year month day].
    + apply Z.ltb_lt in E2. lia.
    + lia.
Qed.

Lemma civil_of_days_succ (n : nat) :
  civil_of_days (S n) = next_day (civil_of_days n).
Proof. reflexivity. Qed.

Lemma civil_of_days_wellFormed (n : nat) : wellFormed (civil_of_days n).
Proof.
  induction n as [|n IH].
  - unfold wellFormed. cbn. lia.
  - rewrite civil_of_days_succ. now apply next_day_wellFormed.
Qed.

Lemma civil_of_days_key_lt (n m : nat) :
  (n < m)%nat -> key (civil_of_days n) < key (civil_of_days m).
Proof.
  induction 1 as [|m _ IH]; rewrite civil_of_days_succ.
  - apply next_day_wellFormed, civil_of_days_wellFormed.
  - etransitivity; [exact IH|].
    apply next_day_wellFormed, civil_of_days_wellFormed.
Qed.

Lemma civil_of_days_key_le (n m : nat) :
  (n <= m)%nat <-> key (civil_of_days n) <= key (civil_of_days m).
Proof.
  split.
  - intros H. apply Nat.lt_eq_cases in H. destruct H as [H| ->]; [|lia].
    apply civil_of_days_key_lt in H. lia.
  - intros H. destruct (Nat.le_gt_cases n m) as [L|L]; [exact L|].
    apply civil_of_days_key_lt in L. lia.
Qed.

(** The dates of two days with four-digit years compare, as ISO strings,
    as the days do. *)
Lemma isoDay_order (n m : nat) :
  year (civil_of_days n) <= 9999 -> year (civil_of_days m) <= 9999 ->
  str_ge (isoDay m) (isoDay n) = (n <=? m)%nat.
Proof.
  intros Hn Hm.
  destruct (civil_of_days_wellFormed n) as (Yn & Mn & Dn).
  destruct (civil_of_days_wellFormed m) as (Ym & Mm & Dm).
  unfold str_ge, isoDay.
  rewrite isoDate_compare by (unfold validCivil; lia).
  rewrite civilCompare_key by assumption.
  destruct (Z.compare_spec (key (civil_of_days m)) (key (civil_of_days n)))
    as [E|E|E]; symmetry.
  - apply Nat.leb_le, civil_of_days_key_le. lia.
  - apply Nat.leb_gt. destruct (Nat.le_gt_cases n m) as [L|L]; [|exact L].
    apply civil_of_days_key_le in L. lia.
  - apply Nat.leb_le, civil_of_days_key_le. lia.
Qed.

Lemma civil_of_days_year_mono (n m : nat) :
  (n <= m)%nat -> year (civil_of_days n) <= year (civil_of_days m).
Proof.
  intros H. apply civil_of_days_key_le in H.
  destruct (civil_of_days_wellFormed n) as (Yn & Mn & Dn).
  destruct (civil_of_days_wellFormed m) as (Ym & Mm & Dm).
  unfold key in H. lia.
Qed.

End IsoDates.

(** ** Amounts that do not parse, and amounts that start with a number *)

Section NumericPrefix.

Lemma digit_not_space (c : ascii) : is_digit c = true -> is_space c = false.
Proof.
  unfold is_digit, is_space. intros H.
  apply andb_true_iff in H. destruct H as [H1 H2].
  apply N.leb_le in H1. apply N.leb_le in H2.
  apply orb_false_iff. split.
  - apply N.eqb_neq. lia.
  - apply andb_false_iff. right. apply N.leb_gt. lia.
Qed.

Lemma digit_not_sign (c : ascii) (r : string) :
  is_digit c = true -> read_sign (String c r) = (false, String c r).
Proof.
  intros H. unfold read_sign.
  destruct (Ascii.eqb_spec c "-") as [->|N1]; [discriminate H|].
  destruct (Ascii.eqb_spec c "+") as [->|N2]; [discriminate H|].
  destruct c as [[] [] [] [] [] [] [] []]; try reflexivity; congruence.
Qed.

Lemma read_digits_app (ds r : string) (acc : Z) (n : nat) :
  digits ds = true ->
  read_digits (ds ++ r) acc n
  = let '(v, k, _) := read_digits ds acc n in read_digits r v k.
Proof.
  revert acc n. induction ds as [|c ds IH]; intros acc n H.
  - rewrite append_empty. reflexivity.
  - cbn [digits] in H. apply andb_true_iff in H. destruct H as [Hc Hd].
    rewrite append_cons. cbn [read_digits]. rewrite Hc. now apply IH.
Qed.

Lemma read_digits_all (ds : string) (acc : Z) (n : nat) :
  digits ds = true -> snd (read_digits ds acc n) = "".
Proof.
  revert acc n. induction ds as [|c ds IH]; intros acc n H; [reflexivity|].
  cbn [digits] in H. apply andb_true_iff in H. destruct H as [Hc Hd].
  cbn [read_digits]. rewrite Hc. now apply IH.
Qed.

Lemma read_digits_stop (c : ascii) (r : string) (acc : Z) (n : nat) :
  is_digit c = false -> read_digits (String c r) acc n = (acc, n, String c r).
Proof. intros H. cbn [read_digits]. now rewrite H. Qed.

Lemma read_exponent_stop (c : ascii) (r : string) :
  endsLiteral c = true -> read_exponent (String c r) = 0.
Proof.
  unfold endsLiteral. intros H.
  apply andb_true_iff in H. destruct H as [H HE].
  apply andb_true_iff in H. destruct H as [_ He].
  apply negb_true_iff in He, HE.
  unfold read_exponent. now rewrite He, HE.
Qed.

Lemma skip_space_digit (c : ascii) (r : string) :
  is_digit c = true -> skip_space (String c r) = String c r.
Proof. intros H. cbn [skip_space]. now rewrite (digit_not_space c H). Qed.

Lemma no_point {B : Type} (c : ascii) (a g : B) :
  c <> "."%char ->
  match c with
  | "."%char => a
  | _ => g
  end = g.
Proof.
  intros H. destruct c as [[] [] [] [] [] [] [] []]; try reflexivity.
  now contradiction H.
Qed.

(** What follows the digits of an integer literal does not count. *)
Lemma parseFloat_integer_prefix (ds : string) (c : ascii) (rest : string) :
  ds <> "" -> digits ds = true -> endsLiteral c = true -> c <> "."%char ->
  parseFloat (ds ++ String c rest) = parseFloat ds.
Proof.
  intros Hne Hd Hc Hp.
  assert (Hnd : is_digit c = false).
  { unfold endsLiteral in Hc. apply andb_true_iff in Hc. destruct Hc as [Hc _].
    apply andb_true_iff in Hc. destruct Hc as [Hc _]. now apply negb_true_iff. }
  destruct ds as [|d ds]; [congruence|].
  assert (Hd0 : is_digit d = true).
  { cbn [digits] in Hd. now apply andb_true_iff in Hd. }
  unfold parseFloat.
  rewrite append_cons, !skip_space_digit, !digit_not_sign by exact Hd0.
  rewrite <- append_cons, read_digits_app by exact Hd.
  pose proof (read_digits_all (String d ds) 0 0%nat Hd) as E.
  destruct (read_digits (String d ds) 0 0%nat) as [[v k] s]. cbn [snd] in E. subst s.
  rewrite read_digits_stop by exact Hnd.
  rewrite (no_point c _ _ Hp).
  now rewrite read_exponent_stop.
Qed.

(** What follows the digits of a decimal literal does not count. *)
Lemma parseFloat_decimal_prefix (ds fs : string) (c : ascii) (rest : string) :
  ds <> "" -> digits ds = true -> digits fs = true -> endsLiteral c = true ->
  parseFloat (ds ++ "." ++ fs ++ String c rest) = parseFloat (ds ++ "." ++ fs).
Proof.
  intros Hne Hd Hf Hc.
  assert (Hnd : is_digit c = false).
  { unfold endsLiteral in Hc. apply andb_true_iff in Hc. destruct Hc as [Hc _].
    apply andb_true_iff in Hc. destruct Hc as [Hc _]. now apply negb_true_iff. }
  destruct ds as [|d ds]; [congruence|].
  assert (Hd0 : is_digit d = true).
  { cbn [digits] in Hd. now apply andb_true_iff in Hd. }
  unfold parseFloat.
  rewrite !(append_cons d), !skip_space_digit, !digit_not_sign by exact Hd0.
  rewrite <- !(append_cons d), !read_digits_app by exact Hd.
  destruct (read_digits (String d ds) 0 0%nat) as [[v k] s].
  rewrite !(append_cons "." ""), !append_empty.
  rewrite !read_digits_stop by reflexivity.
  rewrite read_digits_app by exact Hf.
  pose proof (read_digits_all fs 0 0%nat Hf) as E.
  destruct (read_digits fs 0 0%nat) as [[fv fk] s']. cbn [snd] in E. subst s'.
  rewrite read_digits_stop by exact Hnd.
  now rewrite read_exponent_stop.
Qed.

End NumericPrefix.

(** C3, as amended.  A record whose amount has no numeric prefix reads as
    [NaN] (the literal [Infinity] apart, which the program reads as an
    infinity).  It stops no aggregation, but it counts as [NaN], not as 0,
    and [NaN] absorbs every sum it enters: the total of the record's type
    and [net] are [NaN], the bucket of the record's date is [NaN] in the
    field of its type, and the slice of the category of a malformed
    expense is [NaN].  The sums it does not enter are what they are
    without the record: the total of the other type, the other field of
    its bucket, the buckets of the other dates and the values of the other
    categories.  An amount that starts with a number is not such a record:
    it counts as that number, whatever follows the digits (["12abc"] as 12,
    ["1,200.50"] as 1). *)
Theorem malformed_amount_poisons_its_sums
    (before after : list Transaction) (bad : Transaction) :
  parseFloat (Tx.amount bad) = NaN ->
  isInfinityLiteral (Tx.amount bad) = false ->
  let txs := before ++ bad :: after in
  let rest := before ++ after in
  let other := match Tx.type bad with income => expense | expense => income end in
  (Spec.sumOfType (Tx.type bad) txs = NaN /\
   Spec.sumOfType other txs = Spec.sumOfType other rest /\
   match Tx.type bad with
   | income => totalIncome txs = NaN /\ totalExpense txs = totalExpense rest
   | expense => totalExpense txs = NaN /\ totalIncome txs = totalIncome rest
   end /\
   net txs = NaN /\
   JSMap.get (areaMap txs) (Tx.date bad)
     = Some (match Tx.type bad with
             | income => Area.mkBucket NaN (Spec.sumWhere (Spec.onDate expense (Tx.date bad)) rest)
             | expense => Area.mkBucket (Spec.sumWhere (Spec.onDate income (Tx.date bad)) rest) NaN
             end) /\
   (forall d, d <> Tx.date bad -> JSMap.get (areaMap txs) d = JSMap.get (areaMap rest) d) /\
   match Tx.type bad with
   | income => pieMap txs = pieMap rest
   | expense =>
       JSMap.get (pieMap txs) (Tx.category bad) = Some NaN /\
       In (Pie.mkSlice (Tx.category bad) NaN) (buildPieData txs)
   end /\
   (forall c, c <> Tx.category bad ->
              JSMap.get (pieMap txs) c = JSMap.get (pieMap rest) c)) /\
  (forall ds c tail,
     ds <> "" -> digits ds = true -> endsLiteral c = true -> c <> "."%char ->
     parseFloat (ds ++ String c tail) = parseFloat ds) /\
  (forall ds fs c tail,
     ds <> "" -> digits ds = true -> digits fs = true -> endsLiteral c = true ->
     parseFloat (ds ++ "." ++ fs ++ String c tail) = parseFloat (ds ++ "." ++ fs)) /\
  parseFloat "12abc" = ofZ 12 /\ parseFloat "1,200.50" = ofZ 1 /\
  parseFloat "" = NaN /\ parseFloat "abc" = NaN.
Proof.
  intros Hbad _. cbv zeta.
  split; [exact (poisoned_sums before after bad Hbad)|].
  split; [exact parseFloat_integer_prefix|].
  split; [exact parseFloat_decimal_prefix|].
  split; [js_eval|]. split; [js_eval|]. split; reflexivity.
Qed.

(** The theorem at a malformed expense followed by a well-formed one. *)
Lemma malformed_amount_poisons_its_sums_witness :
  let bad := Tx.mk 1 expense "abc" "food" "" "2024-01-01" "" "" in
  let good := Tx.mk 2 expense "50.00" "rent" "" "2024-01-02" "" "" in
  parseFloat (Tx.amount bad) = NaN /\
  isInfinityLiteral (Tx.amount bad) = false /\
  totalExpense [bad; good] = NaN /\ net [bad; good] = NaN /\
  JSMap.get (pieMap [bad; good]) "food" = Some NaN.
Proof.
  cbv zeta.
  pose proof (malformed_amount_poisons_its_sums []
                [Tx.mk 2 expense "50.00" "rent" "" "2024-01-02" "" ""]
                (Tx.mk 1 expense "abc" "food" "" "2024-01-01" "" "")
                eq_refl eq_refl) as H.
  cbv zeta in H. cbn [Tx.type Tx.category app] in H. destruct H as [H _].
  split; [reflexivity|]. split; [reflexivity|].
  split; [apply H|]. split; [apply H|apply H].
Defined.

(** C3 as stated fails: next to an expense of 50 a malformed expense makes
    [totalExpense] [NaN], not 50. *)
Lemma malformed_amount_not_counted_as_zero :
  let bad := Tx.mk 1 expense "abc" "food" "" "2024-01-01" "" "" in
  let good := Tx.mk 2 expense "50.00" "food" "" "2024-01-02" "" "" in
  parseFloat (Tx.amount bad) = NaN /\
  totalExpense [good] = ofZ 50 /\
  totalExpense [bad; good] <> totalExpense [good].
Proof.
  cbv zeta. split; [reflexivity|]. split; [js_eval|].
  vm_compute. discriminate.
Qed.

(** ** The weekly spend *)

Section WeeklySpend.
Import Limits.

Lemma toISODate_week_ago (now : Z) :
  7 * msPerDay <= now ->
  toISODate (now - 7 * 86400000) = isoDay (Z.to_nat (now / msPerDay) - 7).
Proof.
  intros H. unfold toISODate, isoDay. do 2 f_equal.
  change 86400000 with msPerDay.
  replace (now - 7 * msPerDay) with (now + (-7) * msPerDay) by lia.
  rewrite Z.div_add by (unfold msPerDay; lia).
  assert (7 <= now / msPerDay).
  { apply Z.div_le_lower_bound; unfold msPerDay in *; lia. }
  lia.
Qed.

(** C2, as amended.  [weeklySpend] is the sum of the amounts of the
    expenses dated on or after [weekAgo], the UTC date seven days before
    today: today and the seven days before it, and every later date as
    well, since no upper bound is tested.  The dates are compared as ISO
    strings; for expenses dated from 1970 to 9999 that is the comparison
    of the days themselves. *)
Theorem weekly_spend_since_week_ago (now : Z) (limits : SpendingLimits)
    (transactions : list Transaction) (dayOf : Transaction -> nat) :
  7 * msPerDay <= now ->
  year (civil_of_days (Z.to_nat (now / msPerDay))) <= 9999 ->
  (forall t, In t transactions -> Tx.type t = expense ->
     Tx.date t = isoDay (dayOf t) /\ year (civil_of_days (dayOf t)) <= 9999) ->
  let today := Z.to_nat (now / msPerDay) in
  toISODate now = isoDay today /\
  toISODate (now - 7 * 86400000) = isoDay (today - 7) /\
  weeklySpend (useSpendingLimits now limits transactions)
  = Spec.sumWhere
      (fun t => TxType_eqb (Tx.type t) expense && (today - 7 <=? dayOf t)%nat)
      transactions.
Proof.
  intros Hnow Hyear Htx. cbv zeta.
  split; [reflexivity|]. split; [now apply toISODate_week_ago|].
  unfold useSpendingLimits. cbn [weeklySpend].
  rewrite sumAmounts_filter, toISODate_week_ago by exact Hnow.
  apply sumWhere_ext. intros t Ht.
  destruct (Tx.type t) eqn:Ty; cbn [TxType_eqb andb]; [reflexivity|].
  destruct (Htx t Ht Ty) as [-> Hy].
  apply isoDay_order; [|exact Hy].
  etransitivity; [|exact Hyear].
  apply civil_of_days_year_mono. lia.
Qed.

(** The theorem on 10 January 2024 at noon UTC, for an expense of the 3rd:
    it is counted. *)
Lemma weekly_spend_since_week_ago_witness :
  let t := Tx.mk 1 expense "40.00" "food" "" "2024-01-03" "" "" in
  7 * msPerDay <= 1704888000000 /\
  Tx.date t = isoDay (Z.to_nat 19725) /\
  weeklySpend (useSpendingLimits 1704888000000 (mkLimits (ofZ 0) (ofZ 0)) [t])
  = Spec.sumWhere
      (fun t => TxType_eqb (Tx.type t) expense
                && (Z.to_nat (1704888000000 / msPerDay) - 7 <=? Z.to_nat 19725)%nat)
      [t].
Proof.
  cbv zeta.
  assert (H1 : 7 * msPerDay <= 1704888000000) by (unfold msPerDay; lia).
  assert (H2 : year (civil_of_days (Z.to_nat (1704888000000 / msPerDay))) <= 9999).
  { vm_compute. discriminate. }
  split; [exact H1|]. split; [vm_compute; reflexivity|].
  apply (weekly_spend_since_week_ago 1704888000000 (mkLimits (ofZ 0) (ofZ 0))
           [Tx.mk 1 expense "40.00" "food" "" "2024-01-03" "" ""]
           (fun _ => Z.to_nat 19725) H1 H2).
  intros t [<-|[]] _. split; [vm_compute; reflexivity|].
  vm_compute. discriminate.
Defined.

(** C2 as stated fails: on 10 January 2024 the window of the claim runs
    from the 4th to the 10th, and the code counts an expense of the 3rd
    and an expense of 1 February. *)
Lemma weekly_spend_counts_eighth_day_and_future :
  let now := 1704888000000 in
  let txs := [Tx.mk 1 expense "40.00" "food" "" "2024-01-03" "" "";
              Tx.mk 2 expense "25.00" "food" "" "2024-02-01" "" ""] in
  let code := weeklySpend (useSpendingLimits now (mkLimits (ofZ 0) (ofZ 0)) txs) in
  toISODate now = "2024-01-10" /\
  toISODate (now - 6 * msPerDay) = "2024-01-04" /\
  Spec.weeklySpend now txs = ofZ 0 /\
  code = ofZ 65 /\
  code <> Spec.weeklySpend now txs.
Proof.
  cbv zeta. split; [vm_compute; reflexivity|]. split; [vm_compute; reflexivity|].
  split; [js_eval|]. split; [js_eval|].
  vm_compute. intros [= H].
Qed.

End WeeklySpend.

(** ** The next milestone *)

Section NextMilestone.
Import Milestones Progress.

Lemma percent_between (x y : Qc) :
  (Q2Qc 0 < x)%Qc -> (x < y)%Qc ->
  (Q2Qc 0 < x / y * Q2Qc (inject_Z 100))%Qc /\
  (x / y * Q2Qc (inject_Z 100) < Q2Qc (inject_Z 100))%Qc.
Proof.
  intros Hx Hxy.
  assert (Hy : (Q2Qc 0 < y)%Qc) by (now apply Qclt_trans with x).
  unfold Qclt, Qcmult, Qcdiv, Qcmult, Qcinv, Q2Qc in *. cbn [this] in *.
  rewrite !Qred_correct in *.
  assert (H1 : (0 < this x / this y)%Q).
  { apply Qlt_shift_div_l; [exact Hy|]. now rewrite Qmult_0_l. }
  assert (H2 : (this x / this y < 1)%Q).
  { apply Qlt_shift_div_r; [exact Hy|]. now rewrite Qmult_1_l. }
  unfold Qdiv in H1, H2. split.
  - apply (Qmult_lt_r _ _ (inject_Z 100)) in H1; [|reflexivity].
    now rewrite Qmult_0_l in H1.
  - apply (Qmult_lt_r _ _ (inject_Z 100)) in H2; [|reflexivity].
    now rewrite Qmult_1_l in H2.
Qed.

Lemma gt_true (a b : number) :
  gt a b = true <-> exists x y, a = Num x /\ b = Num y /\ (y < x)%Qc.
Proof.
  unfold gt. rewrite lt_true. split.
  - intros (y & x & -> & -> & H). now exists x, y.
  - intros (x & y & -> & -> & H). now exists y, x.
Qed.

Lemma milestones_truthy (m : number) : In m SAVING_MILESTONES -> truthy m = true.
Proof.
  unfold SAVING_MILESTONES. cbn [map In].
  intros H. repeat (destruct H as [<-|H]; [reflexivity|]). destruct H.
Qed.

(** X8. The next milestone of the net card is the least threshold
    strictly above [net], and there is none exactly when no threshold is
    above [net].  When the progress row is shown, its target is that
    threshold, the bar width [net / target * 100] lies strictly between 0
    and 100, and the amount still to go, [target - net], is positive.  The
    trophy line is shown exactly when [net] is at least 10000. *)
Theorem next_milestone_is_least_above (net : number) :
  (forall m, nextMilestone net = Some m ->
     In m SAVING_MILESTONES /\ lt net m = true /\
     forall m', In m' SAVING_MILESTONES -> lt net m' = true -> le m m' = true) /\
  (nextMilestone net = None <->
     forall m, In m SAVING_MILESTONES -> lt net m = false) /\
  (forall width remaining target,
     milestoneHint net = ProgressRow width remaining target ->
     nextMilestone net = Some target /\
     lt (ofZ 0) width = true /\ lt width (ofZ 100) = true /\
     lt (ofZ 0) remaining = true /\
     width = (net / target * ofZ 100)%js /\ remaining = (target - net)%js) /\
  (milestoneHint net = AllReached <-> le (ofZ 10000) net = true).
Proof.
  split; [|split; [|split]].
  - intros m F. unfold nextMilestone in F.
    pose proof (find_some _ _ F) as [Hin Hgt].
    split; [exact Hin|]. split; [exact Hgt|].
    intros m' Hin' Hlt. destruct (find_first _ _ _ F) as (l1 & l2 & E & _ & Hl).
    apply (first_is_lowest (fun m => gt m net) SAVING_MILESTONES l1 l2);
      auto using milestones_ascending, milestones_numeric.
  - unfold nextMilestone. apply find_none_iff.
  - intros width remaining target H. unfold milestoneHint in H.
    destruct (nextMilestone net) as [m|] eqn:F.
    2:{ destruct (gt net (ofZ 0)); discriminate. }
    destruct (gt net (ofZ 0)) eqn:G; [|discriminate].
    unfold nextMilestone in F. pose proof (find_some _ _ F) as [Hin Hgt].
    rewrite (milestones_truthy m Hin) in H. cbn [andb] in H.
    injection H as <- <- <-.
    split; [reflexivity|].
    unfold nextPct, nextMilestone. rewrite F, (milestones_truthy m Hin).
    apply gt_true in G. destruct G as (x & z & -> & Ez & Hx).
    injection Ez as <-.
    apply gt_true in Hgt. destruct Hgt as (y & x' & -> & Ex & Hxy).
    injection Ex as <-.
    destruct (percent_between x y Hx Hxy) as [P1 P2].
    assert (Hy : y <> Q2Qc 0).
    { intros ->. apply (Qclt_not_le _ _ Hx). now apply Qclt_le_weak. }
    assert (D : (Num x / Num y * ofZ 100)%js
                = Num (x / y * Q2Qc (inject_Z 100))%Qc).
    { unfold div, mul, ofZ. unfold Qc_eq_bool.
      destruct (Qc_eq_dec y (Q2Qc 0)) as [E|_]; [contradiction|reflexivity]. }
    rewrite D. unfold Math_min, ofZ.
    assert (L : le (Num (x / y * Q2Qc (inject_Z 100))%Qc) (Num (Q2Qc (inject_Z 100))) = true).
    { apply lt_le, lt_true. eauto. }
    rewrite L.
    split; [apply lt_true; eauto|]. split; [apply lt_true; eauto|].
    split; [|split; reflexivity].
    apply lt_true. exists (Q2Qc 0), (y - x)%Qc. split; [reflexivity|].
    split; [reflexivity|].
    unfold Qcminus. apply (Qcplus_lt_mono_r _ _ x). 
    rewrite Qcplus_0_l, <- Qcplus_assoc, (Qcplus_comm (- x)), Qcplus_opp_r, Qcplus_0_r.
    exact Hxy.
  - unfold milestoneHint. split.
    + destruct (nextMilestone net) as [m|] eqn:F.
      { destruct (gt net (ofZ 0) && truthy m); discriminate. }
      destruct (gt net (ofZ 0)) eqn:G; [|discriminate]. intros _.
      unfold nextMilestone in F. rewrite find_none_iff in F.
      assert (H := F (ofZ 10000)). cbn beta in H.
      apply gt_true in G. destruct G as (x & z & -> & _ & _).
      destruct (le (ofZ 10000) (Num x)) eqn:E; [reflexivity|].
      exfalso. 
      assert (H0 : gt (ofZ 10000) (Num x) = true).
      { apply gt_true. exists (Q2Qc (inject_Z 10000)), x.
        split; [reflexivity|]. split; [reflexivity|].
        apply Qcnot_le_lt. intros Hle.
        assert (le (ofZ 10000) (Num x) = true) by (apply le_true; eauto).
        congruence. }
      rewrite H in H0; [discriminate|].
      unfold SAVING_MILESTONES. cbn [map In]. tauto.
    + intros H. apply le_true in H. destruct H as (t & x & Et & -> & H).
      injection Et as <-.
      assert (F : nextMilestone (Num x) = None).
      { unfold nextMilestone. apply find_none_iff. intros m Hm.
        destruct (gt m (Num x)) eqn:G; [|reflexivity]. exfalso.
        apply gt_true in G. destruct G as (y & x' & -> & Ex & Hy).
        injection Ex as <-.
        assert (Hm' : le (Num y) (ofZ 10000) = true).
        { revert Hm. unfold SAVING_MILESTONES. cbn [map In].
          intros Hm. repeat (destruct Hm as [Hm|Hm]; [rewrite <- Hm; reflexivity|]).
          destruct Hm. }
        apply le_true in Hm'. destruct Hm' as (y' & t' & Ey & Et' & Hyt).
        injection Ey as <-. injection Et' as <-.
        apply (Qclt_not_le _ _ Hy). now apply Qcle_trans with (Q2Qc (inject_Z 10000)). }
      rewrite F.
      assert (G : gt (Num x) (ofZ 0) = true).
      { apply gt_true. exists x, (Q2Qc 0). split; [reflexivity|]. split; [reflexivity|].
        apply Qclt_le_trans with (Q2Qc (inject_Z 10000)); [reflexivity|exact H]. }
      now rewrite G.
Qed.

End NextMilestone.

(** ** The daily spend *)

Section DailySpend.
Import Limits.

Lemma str_ge_refl (s : string) : str_ge s s = true.
Proof. unfold str_ge. now rewrite compare_refl. Qed.

Lemma isoDay_injective (n m : nat) :
  year (civil_of_days n) <= 9999 -> year (civil_of_days m) <= 9999 ->
  String.eqb (isoDay n) (isoDay m) = (n =? m)%nat.
Proof.
  intros Hn Hm. destruct (String.eqb (isoDay n) (isoDay m)) eqn:E; symmetry.
  - apply String.eqb_eq in E. apply Nat.eqb_eq.
    pose proof (isoDay_order n m Hn Hm) as H1.
    pose proof (isoDay_order m n Hm Hn) as H2.
    rewrite E, str_ge_refl in H1. rewrite E, str_ge_refl in H2.
    symmetry in H1, H2. apply Nat.leb_le in H1, H2. lia.
  - apply Nat.eqb_neq. intros ->. rewrite String.eqb_refl in E. discriminate.
Qed.

(** X1. [dailySpend] is the sum of the amounts of the expenses dated today
    (the UTC date of the clock; for expenses dated from 1970 to 9999, the
    expenses of today's day number), and every expense counted in the
    daily spend is counted in the weekly spend. *)
Theorem daily_spend_is_todays_and_within_weekly (now : Z) (limits : SpendingLimits)
    (transactions : list Transaction) (dayOf : Transaction -> nat) :
  7 * msPerDay <= now ->
  year (civil_of_days (Z.to_nat (now / msPerDay))) <= 9999 ->
  (forall t, In t transactions -> Tx.type t = expense ->
     Tx.date t = isoDay (dayOf t) /\ year (civil_of_days (dayOf t)) <= 9999) ->
  let today := Z.to_nat (now / msPerDay) in
  dailySpend (useSpendingLimits now limits transactions)
  = Spec.sumWhere
      (fun t => TxType_eqb (Tx.type t) expense && (dayOf t =? today)%nat)
      transactions /\
  (forall t, String.eqb (Tx.date t) (toISODate now) = true ->
             str_ge (Tx.date t) (toISODate (now - 7 * 86400000)) = true) /\
  incl (filter (fun t => TxType_eqb (Tx.type t) expense
                         && String.eqb (Tx.date t) (toISODate now)) transactions)
       (filter (fun t => TxType_eqb (Tx.type t) expense
                         && str_ge (Tx.date t) (toISODate (now - 7 * 86400000)))
               transactions).
Proof.
  intros Hnow Hyear Htx. cbv zeta.
  assert (W : forall t, String.eqb (Tx.date t) (toISODate now) = true ->
              str_ge (Tx.date t) (toISODate (now - 7 * 86400000)) = true).
  { intros t E. apply String.eqb_eq in E. rewrite E.
    rewrite toISODate_week_ago by exact Hnow.
    change (toISODate now) with (isoDay (Z.to_nat (now / msPerDay))).
    rewrite isoDay_order.
    - apply Nat.leb_le. lia.
    - etransitivity; [|exact Hyear]. apply civil_of_days_year_mono. lia.
    - exact Hyear. }
  split; [|split; [exact W|]].
  - unfold useSpendingLimits. cbn [dailySpend]. rewrite sumAmounts_filter.
    apply sumWhere_ext. intros t Ht.
    destruct (Tx.type t) eqn:Ty; cbn [TxType_eqb andb]; [reflexivity|].
    destruct (Htx t Ht Ty) as [-> Hy].
    change (toISODate now) with (isoDay (Z.to_nat (now / msPerDay))).
    now apply isoDay_injective.
  - intros t Ht. apply filter_In in Ht. destruct Ht as [Ht Hp].
    apply andb_true_iff in Hp. destruct Hp as [Ty E].
    apply filter_In. split; [exact Ht|]. now rewrite Ty, (W t E).
Qed.

(** The theorem on 10 January 2024 at noon UTC, for an expense of that day. *)
Lemma daily_spend_is_todays_and_within_weekly_witness :
  let t := Tx.mk 1 expense "12.50" "food" "" "2024-01-10" "" "" in
  7 * msPerDay <= 1704888000000 /\
  Tx.date t = isoDay (Z.to_nat 19732) /\
  dailySpend (useSpendingLimits 1704888000000 (mkLimits (ofZ 0) (ofZ 0)) [t])
  = Spec.sumWhere
      (fun t => TxType_eqb (Tx.type t) expense
                && (Z.to_nat 19732 =? Z.to_nat (1704888000000 / msPerDay))%nat)
      [t].
Proof.
  cbv zeta.
  assert (H1 : 7 * msPerDay <= 1704888000000) by (unfold msPerDay; lia).
  assert (H2 : year (civil_of_days (Z.to_nat (1704888000000 / msPerDay))) <= 9999).
  { vm_compute. discriminate. }
  split; [exact H1|]. split; [vm_compute; reflexivity|].
  assert (H3 : forall t, In t [Tx.mk 1 expense "12.50" "food" "" "2024-01-10" "" ""] ->
                Tx.type t = expense ->
                Tx.date t = isoDay (Z.to_nat 19732) /\
                year (civil_of_days (Z.to_nat 19732)) <= 9999).
  { intros t [<-|[]] _. split; [vm_compute; reflexivity|].
    vm_compute. discriminate. }
  exact (proj1 (daily_spend_is_todays_and_within_weekly 1704888000000
                  (mkLimits (ofZ 0) (ofZ 0))
                  [Tx.mk 1 expense "12.50" "food" "" "2024-01-10" "" ""]
                  (fun _ => Z.to_nat 19732) H1 H2 H3)).
Defined.

End DailySpend.

(** ** Thresholds that were jumped over *)

Section Skipped.
Import Milestones.

Lemma observe_prevNet (net : number) (st : State) :
  prevNetRef (fst (observe net st)) = net.
Proof.
  destruct (observe_cases net st) as [(m0 & _ & ->)|[_ ->]]; reflexivity.
Qed.

Lemma observe_not_below (net m : number) (st : State) :
  le m (prevNetRef st) = true -> ~ In m (snd (observe net st)).
Proof.
  intros H. destruct (observe_cases net st) as [(m0 & [Hc _] & ->)|[_ ->]];
    cbn [snd]; [|intros []].
  intros [<-|[]]. destruct Hc as (_ & Hlt & _).
  apply lt_le_false in Hlt. congruence.
Qed.

Lemma observeAll_not_below (nets : list number) (m : number) (st : State) :
  le m (prevNetRef st) = true ->
  Forall (fun n => le m n = true) nets ->
  ~ In m (concat (snd (observeAll nets st))).
Proof.
  revert st. induction nets as [|n nets IH]; intros st H F; cbn [observeAll].
  - intros [].
  - apply Forall_cons_iff in F. destruct F as [Fn F].
    pose proof (observe_not_below n m st H) as N.
    pose proof (observe_prevNet n st) as P.
    destruct (observe n st) as [st1 ev]. cbn [fst snd] in N, P.
    assert (H1 : le m (prevNetRef st1) = true) by now rewrite P.
    specialize (IH st1 H1 F). destruct (observeAll nets st1) as [st2 evs].
    cbn [snd concat] in *. intros Hin. apply in_app_or in Hin. tauto.
Qed.

Lemma observe_within (net : number) (st : State) :
  incl (celebrated st) SAVING_MILESTONES ->
  incl (celebrated (fst (observe net st))) SAVING_MILESTONES.
Proof.
  intros H. destruct (observe_cases net st) as [(m0 & [Hc _] & ->)|[_ ->]];
    cbn [fst celebrated]; [|exact H].
  apply incl_app; [exact H|]. intros x [<-|[]]. apply Hc.
Qed.

Lemma observeAll_within (nets : list number) (st : State) :
  incl (celebrated st) SAVING_MILESTONES ->
  incl (celebrated (fst (observeAll nets st))) SAVING_MILESTONES.
Proof.
  revert st. induction nets as [|n nets IH]; intros st H; cbn [observeAll].
  - exact H.
  - pose proof (observe_within n st H) as H1.
    destruct (observe n st) as [st1 ev]. specialize (IH st1 H1).
    now destruct (observeAll nets st1).
Qed.

(** X12. A threshold at or below the previous net is never fired while
    the observed net stays at or above it: thresholds jumped over in one
    rise stay silent until net has dropped below them.  Over a session the
    thresholds fired are thresholds of the list, at most seven in all. *)
Theorem jumped_thresholds_stay_silent (st : State) (nets : list number) (m : number) :
  le m (prevNetRef st) = true ->
  Forall (fun n => le m n = true) nets ->
  ~ In m (concat (snd (observeAll nets st))) /\
  (forall net0 observed,
     incl (concat (snd (session net0 observed))) SAVING_MILESTONES /\
     (length (concat (snd (session net0 observed))) <= 7)%nat).
Proof.
  intros H F. split; [now apply observeAll_not_below|].
  intros net0 observed. unfold session.
  pose proof (observeAll_celebrated (net0 :: observed) (init net0)) as E.
  cbn [init celebrated app] in E.
  assert (I : incl (concat (snd (observeAll (net0 :: observed) (init net0))))
                SAVING_MILESTONES).
  { rewrite <- E. apply observeAll_within. intros x []. }
  split; [exact I|].
  change 7%nat with (length SAVING_MILESTONES).
  apply NoDup_incl_length; [|exact I].
  rewrite <- E. apply observeAll_NoDup, NoDup_nil.
Qed.

(** The theorem for a first snapshot of 600 followed by 700: the threshold 500 stays
    silent. *)
Lemma jumped_thresholds_stay_silent_witness :
  le (ofZ 500) (prevNetRef (init (ofZ 600))) = true /\
  Forall (fun n => le (ofZ 500) n = true) [ofZ 700] /\
  ~ In (ofZ 500) (concat (snd (observeAll [ofZ 700] (init (ofZ 600))))).
Proof.
  assert (H : le (ofZ 500) (prevNetRef (init (ofZ 600))) = true)
    by (vm_compute; reflexivity).
  assert (F : Forall (fun n => le (ofZ 500) n = true) [ofZ 700])
    by (constructor; [vm_compute; reflexivity|constructor]).
  split; [exact H|]. split; [exact F|].
  exact (proj1 (jumped_thresholds_stay_silent (init (ofZ 600)) [ofZ 700] (ofZ 500) H F)).
Defined.

End Skipped.

(** ** The charts, point by point *)

Section Charts.

Lemma In_get {V : Type} (m : list (string * V)) (k : string) (v : V) :
  NoDup (JSMap.keys m) -> In (k, v) m -> JSMap.get m k = Some v.
Proof.
  unfold JSMap.keys.
  induction m as [|[k' v'] m IH]; cbn [map fst JSMap.get In]; intros N H; [destruct H|].
  apply NoDup_cons_iff in N. destruct N as [N1 N2].
  destruct H as [[= -> ->]|H].
  - now rewrite String.eqb_refl.
  - destruct (String.eqb k' k) eqn:E; [|now apply IH].
    apply String.eqb_eq in E. subst k'. exfalso. apply N1.
    apply in_map_iff. now exists (k, v).
Qed.

Lemma firstSeen_length (xs seen : list string) :
  (length (Spec.firstSeen seen xs) <= length xs)%nat.
Proof.
  revert seen. induction xs as [|x xs IH]; intros seen; cbn [Spec.firstSeen length].
  - lia.
  - destruct (Category.includes seen x); cbn [length].
    + specialize (IH seen). lia.
    + specialize (IH (seen ++ [x])). lia.
Qed.

Lemma areaMap_keys_NoDup (transactions : list Transaction) :
  NoDup (JSMap.keys (areaMap transactions)).
Proof. rewrite areaMap_keys. apply (firstSeen_NoDup _ []), NoDup_nil. Qed.

(** X2. Each point of the time series carries, for the date it was built
    for, the sum of the income amounts and the sum of the expense amounts
    of exactly the transactions of that date; no date has two points, there
    are no more points than transactions, and the empty list gives the
    empty series. *)
Theorem time_series_points_are_daily_sums (transactions : list Transaction) :
  buildAreaData transactions
  = map (fun d => Area.mkPoint (fmtShort d)
                    (Spec.sumWhere (Spec.onDate income d) transactions)
                    (Spec.sumWhere (Spec.onDate expense d) transactions))
        (JSMap.keys (areaMap transactions)) /\
  NoDup (JSMap.keys (areaMap transactions)) /\
  (length (buildAreaData transactions) <= length transactions)%nat /\
  buildAreaData [] = [].
Proof.
  split; [|split; [apply areaMap_keys_NoDup|split; [|reflexivity]]].
  - unfold buildAreaData, JSMap.keys. rewrite map_map.
    apply map_ext_in. intros [d v] Hin. cbn [fst areaPoint].
    pose proof (In_get _ _ _ (areaMap_keys_NoDup transactions) Hin) as G.
    rewrite areaMap_get in G.
    destruct (existsb _ transactions); [|discriminate].
    injection G as <-. reflexivity.
  - unfold buildAreaData. rewrite length_map.
    change (length (areaMap transactions))
      with (length (areaMap transactions)).
    rewrite <- (length_map fst). fold (JSMap.keys (areaMap transactions)).
    rewrite areaMap_keys.
    etransitivity; [apply firstSeen_length|].
    rewrite length_map. apply Nat.eq_le_incl.
    apply Permutation_length, Array_sort_perm.
Qed.

(** *** The stable sort keeps ties in place *)

Section Stable.
Context {A : Type} (cmp : A -> A -> number) (p : A -> bool).
Hypothesis ties : forall a b, p a = true -> p b = true -> gt (cmp a b) (ofZ 0) = false.

Lemma sort_insert_filter (x : A) (l : list A) :
  filter p (sort_insert cmp x l) = if p x then x :: filter p l else filter p l.
Proof.
  induction l as [|y l IH]; cbn [sort_insert filter]; [reflexivity|].
  destruct (gt (cmp x y) (ofZ 0)) eqn:G; cbn [filter]; [|reflexivity].
  rewrite IH. destruct (p x) eqn:Px; [|reflexivity].
  destruct (p y) eqn:Py; [|reflexivity].
  rewrite (ties x y Px Py) in G. discriminate.
Qed.

Lemma Array_sort_stable (l : list A) : filter p (Array_sort cmp l) = filter p l.
Proof.
  induction l as [|x l IH]; cbn [Array_sort fold_right filter]; [reflexivity|].
  fold (Array_sort cmp l). rewrite sort_insert_filter, IH. reflexivity.
Qed.
End Stable.

(** Sortedness when the comparator is consistent on the elements at hand. *)
Section SortedOn.
Context {A : Type} (cmp : A -> A -> number) (R : A -> A -> Prop) (P : A -> Prop).
Hypothesis R_trans : forall a b c, R a b -> R b c -> R a c.
Hypothesis cmp_gt : forall a b, P a -> P b -> gt (cmp a b) (ofZ 0) = true -> R b a.
Hypothesis cmp_not_gt : forall a b, P a -> P b -> gt (cmp a b) (ofZ 0) = false -> R a b.

Lemma sort_insert_sorted_on (x : A) (l : list A) :
  P x -> Forall P l -> StronglySorted R l -> StronglySorted R (sort_insert cmp x l).
Proof.
  intros Px Pl H. induction H as [|y l Hs IH Hy]; cbn [sort_insert].
  - apply SSorted_cons; [apply SSorted_nil|apply Forall_nil].
  - apply Forall_cons_iff in Pl. destruct Pl as [Py Pl].
    destruct (gt (cmp x y) (ofZ 0)) eqn:E.
    + apply SSorted_cons; [now apply IH|].
      rewrite Forall_forall. intros z Hz.
      apply (Permutation_in _ (sort_insert_perm cmp x l)) in Hz.
      destruct Hz as [<-|Hz]; [now apply cmp_gt|].
      rewrite Forall_forall in Hy. now apply Hy.
    + apply cmp_not_gt in E; auto.
      apply SSorted_cons; [now apply SSorted_cons|].
      apply Forall_cons; [exact E|].
      rewrite Forall_forall in Hy |- *. intros z Hz.
      apply R_trans with y; auto.
Qed.

Lemma Array_sort_sorted_on (l : list A) :
  Forall P l -> StronglySorted R (Array_sort cmp l).
Proof.
  induction l as [|x l IH]; cbn [Array_sort fold_right]; intros H; [apply SSorted_nil|].
  apply Forall_cons_iff in H. destruct H as [Px Pl].
  apply sort_insert_sorted_on; auto.
  rewrite Forall_forall in Pl |- *. intros z Hz. apply Pl.
  exact (Permutation_in _ (Array_sort_perm cmp l) Hz).
Qed.
End SortedOn.

Lemma sumWhere_numeric (p : Transaction -> bool) (xs : list Transaction) :
  (forall t, In t xs -> p t = true -> isNaN (parseFloat (Tx.amount t)) = false) ->
  isNaN (Spec.sumWhere p xs) = false.
Proof.
  induction xs as [|t xs IH]; intros H; cbn [Spec.sumWhere]; [reflexivity|].
  assert (IH' := IH (fun u Hu => H u (or_intror Hu))).
  destruct (p t) eqn:Pt; [|exact IH'].
  specialize (H t (or_introl eq_refl) Pt).
  destruct (parseFloat (Tx.amount t)); [|discriminate].
  now destruct (Spec.sumWhere p xs).
Qed.

Lemma round2_numeric (x : number) : isNaN x = false -> isNaN (round2 x) = false.
Proof. now destruct x. Qed.

Lemma pieMap_keys (transactions : list Transaction) :
  JSMap.keys (pieMap transactions)
  = Spec.firstSeen []
      (map Tx.category (filter (fun t => TxType_eqb (Tx.type t) expense) transactions)).
Proof. unfold pieMap. now rewrite keys_fold_pie. Qed.

Lemma pie_slices (transactions : list Transaction) :
  map pieSlice (pieMap transactions)
  = map (fun c => Pie.mkSlice c
                    (round2 (Spec.sumWhere (Spec.inCategory expense c) transactions)))
        (JSMap.keys (pieMap transactions)).
Proof.
  unfold JSMap.keys. rewrite map_map.
  apply map_ext_in. intros [c v] Hin. cbn [fst pieSlice].
  pose proof (In_get _ _ _ (pieMap_keys_NoDup transactions) Hin) as G.
  rewrite pieMap_get in G.
  destruct (existsb _ transactions); [|discriminate].
  injection G as <-. reflexivity.
Qed.

(** X3. The slices of the pie are, in some order, one slice for each
    category that has an expense, valued at the sum of the expenses of the
    category rounded to cents; no category appears twice, income never
    makes a slice, and the pie is empty exactly when there is no
    expense. *)
Theorem pie_slices_are_category_sums (transactions : list Transaction) :
  let categories :=
    Spec.firstSeen []
      (map Tx.category
         (filter (fun t => TxType_eqb (Tx.type t) expense) transactions)) in
  Permutation (buildPieData transactions)
    (map (fun c => Pie.mkSlice c
                     (round2 (Spec.sumWhere (Spec.inCategory expense c) transactions)))
         categories) /\
  NoDup (map Pie.name (buildPieData transactions)) /\
  (forall c, In c (map Pie.name (buildPieData transactions)) <->
             exists t, In t transactions /\ Tx.type t = expense /\ Tx.category t = c) /\
  (buildPieData transactions = [] <->
   forall t, In t transactions -> Tx.type t = income).
Proof.
  cbv zeta. rewrite <- pieMap_keys.
  assert (P : Permutation (buildPieData transactions)
                (map (fun c => Pie.mkSlice c
                       (round2 (Spec.sumWhere (Spec.inCategory expense c) transactions)))
                     (JSMap.keys (pieMap transactions)))).
  { unfold buildPieData. rewrite Array_sort_perm. now rewrite pie_slices. }
  assert (Q : Permutation (map Pie.name (buildPieData transactions))
                (JSMap.keys (pieMap transactions))).
  { rewrite (Permutation_map Pie.name P), map_map. cbn [Pie.name].
    now rewrite map_id. }
  assert (K : forall c, In c (JSMap.keys (pieMap transactions)) <->
              exists t, In t transactions /\ Tx.type t = expense /\ Tx.category t = c).
  { intros c. rewrite pieMap_keys, <- (app_nil_l (Spec.firstSeen _ _)), firstSeen_In.
    rewrite in_map_iff. split.
    - intros [[]|(t & <- & Ht)]. apply filter_In in Ht. destruct Ht as [Ht Ty].
      exists t. repeat split; auto. now destruct (Tx.type t).
    - intros (t & Ht & Ty & <-). right. exists t. split; [reflexivity|].
      apply filter_In. split; [exact Ht|]. now rewrite Ty. }
  split; [exact P|]. split; [|split].
  - apply (Permutation_NoDup (Permutation_sym Q)), pieMap_keys_NoDup.
  - intros c. rewrite <- K. split; intros H.
    + exact (Permutation_in _ Q H).
    + exact (Permutation_in _ (Permutation_sym Q) H).
  - split.
    + intros E t Ht. destruct (Tx.type t) eqn:Ty; [reflexivity|]. exfalso.
      assert (In (Tx.category t) (map Pie.name (buildPieData transactions))).
      { apply (Permutation_in _ (Permutation_sym Q)), K. now exists t. }
      rewrite E in H. destruct H.
    + intros H. 
      destruct (buildPieData transactions) as [|s l] eqn:E; [reflexivity|]. exfalso.
      assert (Hin : In (Pie.name s) (JSMap.keys (pieMap transactions))).
      { apply (Permutation_in _ Q). rewrite ?E. now left. }
      apply K in Hin. destruct Hin as (t & Ht & Ty & _).
      rewrite (H t Ht) in Ty. discriminate.
Qed.

Lemma sub_gt_iff (x y : Qc) :
  gt (Num y - Num x)%js (ofZ 0) = true <-> (x < y)%Qc.
Proof.
  rewrite gt_true. cbn [sub]. split.
  - intros (d & z & [= <-] & [= <-] & H).
    apply (Qcplus_lt_mono_r _ _ (- x)). rewrite Qcplus_opp_r. exact H.
  - intros H. exists (y - x)%Qc, (Q2Qc 0). split; [reflexivity|]. split; [reflexivity|].
    unfold Qcminus. rewrite <- (Qcplus_opp_r x).
    now apply Qcplus_lt_mono_r.
Qed.

(** X4. When every expense amount parses to a number, the slices stand in
    descending order of value, and slices of equal value keep the order in
    which their categories were first met. *)
Theorem pie_slices_descend_with_stable_ties (transactions : list Transaction) :
  (forall t, In t transactions -> Tx.type t = expense ->
             isNaN (parseFloat (Tx.amount t)) = false) ->
  StronglySorted (fun a b => ge (Pie.value a) (Pie.value b) = true)
    (buildPieData transactions) /\
  (forall v, filter (fun s => eqb (Pie.value s) v) (buildPieData transactions)
             = filter (fun s => eqb (Pie.value s) v) (map pieSlice (pieMap transactions))).
Proof.
  intros Hnum. split.
  - unfold buildPieData.
    apply (Array_sort_sorted_on _ _ (fun s => isNaN (Pie.value s) = false)).
    + intros a b c. unfold ge. intros H1 H2. now apply le_trans with (Pie.value b).
    + intros a b Ha Hb G. unfold ge.
      destruct (Pie.value a) as [x|]; [|discriminate].
      destruct (Pie.value b) as [y|]; [|discriminate].
      apply sub_gt_iff in G. apply lt_le, lt_true. eauto.
    + intros a b Ha Hb G. unfold ge.
      destruct (Pie.value a) as [x|]; [|discriminate].
      destruct (Pie.value b) as [y|]; [|discriminate].
      apply le_true. exists y, x. split; [reflexivity|]. split; [reflexivity|].
      apply Qcnot_lt_le. intros L. apply sub_gt_iff in L. congruence.
    + rewrite pie_slices. apply Forall_forall. intros s Hs.
      apply in_map_iff in Hs. destruct Hs as (c & <- & _). cbn [Pie.value].
      apply round2_numeric, sumWhere_numeric. intros t Ht Hp.
      apply Hnum; [exact Ht|]. unfold Spec.inCategory in Hp.
      apply andb_true_iff in Hp. destruct Hp as [Hp _]. now destruct (Tx.type t).
  - intros v. unfold buildPieData. apply Array_sort_stable.
    intros a b Ha Hb. unfold eqb in Ha, Hb.
    destruct (Pie.value a) as [x|]; [|discriminate].
    destruct (Pie.value b) as [y|]; [|discriminate].
    destruct v as [z|]; [|discriminate].
    apply Qc_eq_bool_correct in Ha, Hb. subst.
    destruct (gt (Num z - Num z)%js (ofZ 0)) eqn:G; [|reflexivity].
    apply sub_gt_iff in G. destruct (Qclt_not_le _ _ G). apply Qcle_refl.
Qed.

(** The theorem for two categories of equal value and a larger third one. *)
Lemma pie_slices_descend_with_stable_ties_witness :
  let txs := [Tx.mk 1 expense "10.00" "food" "" "2024-01-10" "" "";
              Tx.mk 2 expense "10.00" "rent" "" "2024-01-10" "" "";
              Tx.mk 3 expense "30.00" "fuel" "" "2024-01-11" "" ""] in
  (forall t, In t txs -> Tx.type t = expense ->
             isNaN (parseFloat (Tx.amount t)) = false) /\
  StronglySorted (fun a b => ge (Pie.value a) (Pie.value b) = true)
    (buildPieData txs).
Proof.
  cbv zeta.
  assert (H : forall t,
             In t [Tx.mk 1 expense "10.00" "food" "" "2024-01-10" "" "";
                   Tx.mk 2 expense "10.00" "rent" "" "2024-01-10" "" "";
                   Tx.mk 3 expense "30.00" "fuel" "" "2024-01-11" "" ""] ->
             Tx.type t = expense -> isNaN (parseFloat (Tx.amount t)) = false).
  { intros t [<-|[<-|[<-|[]]]] _; vm_compute; reflexivity. }
  split; [exact H|].
  exact (proj1 (pie_slices_descend_with_stable_ties _ H)).
Defined.

End Charts.

(** ** Groups that share out a list *)

Section Partition.
Context {A : Type} (p : A -> bool) (key : A -> string).

Lemma groups_cons_hit (ks : list string) (x : A) (xs : list A) :
  NoDup ks -> In (key x) ks -> p x = true ->
  Permutation
    (concat (map (fun k => filter (fun t => p t && String.eqb (key t) k) (x :: xs)) ks))
    (x :: concat (map (fun k => filter (fun t => p t && String.eqb (key t) k) xs) ks)).
Proof.
  intros N. induction N as [|k ks Hk N IH]; intros Hin Hp; [destruct Hin|].
  cbn [map concat].
  assert (H0 : filter (fun t => p t && String.eqb (key t) k) (x :: xs)
               = if String.eqb (key x) k
                 then x :: filter (fun t => p t && String.eqb (key t) k) xs
                 else filter (fun t => p t && String.eqb (key t) k) xs).
  { cbn [filter]. now rewrite Hp. }
  rewrite H0. clear H0.
  destruct (String.eqb (key x) k) eqn:E.
  - apply String.eqb_eq in E. subst k. cbn [app]. apply perm_skip.
    apply Permutation_app_head.
    match goal with |- Permutation (concat ?l) (concat ?r) => replace l with r end;
      [reflexivity|].
    apply map_ext_in. intros k' Hk'. cbn [filter]. rewrite Hp. cbn [andb].
    destruct (String.eqb (key x) k') eqn:E'; [|reflexivity].
    apply String.eqb_eq in E'. now subst k'.
  - destruct Hin as [->|Hin]; [now rewrite String.eqb_refl in E|].
    etransitivity; [apply Permutation_app_head, (IH Hin Hp)|].
    symmetry. apply Permutation_middle.
Qed.

Lemma groups_cons_miss (ks : list string) (x : A) (xs : list A) :
  p x = false ->
  map (fun k => filter (fun t => p t && String.eqb (key t) k) (x :: xs)) ks
  = map (fun k => filter (fun t => p t && String.eqb (key t) k) xs) ks.
Proof.
  intros Hp. apply map_ext. intros k. cbn [filter]. now rewrite Hp.
Qed.

(** Distinct keys that cover the list share out the records that pass
    [p]: each is in the group of its key and in no other. *)
Lemma groups_partition (ks : list string) (xs : list A) :
  NoDup ks ->
  (forall t, In t xs -> p t = true -> In (key t) ks) ->
  Permutation
    (concat (map (fun k => filter (fun t => p t && String.eqb (key t) k) xs) ks))
    (filter p xs).
Proof.
  intros N.
  induction xs as [|x xs IH]; intros Hin.
  - cbn [filter]. clear. induction ks; cbn [map concat app]; auto.
  - assert (IH' := IH (fun t Ht => Hin t (or_intror Ht))).
    destruct (p x) eqn:Hp.
    + assert (F : filter p (x :: xs) = x :: filter p xs)
        by (cbn [filter]; now rewrite Hp).
      rewrite F. etransitivity; [apply groups_cons_hit; auto|].
      * apply Hin; [now left|exact Hp].
      * now apply perm_skip.
    + assert (F : filter p (x :: xs) = filter p xs)
        by (cbn [filter]; now rewrite Hp).
      rewrite F, groups_cons_miss by exact Hp. exact IH'.
Qed.

End Partition.

(** ** The time series in the order of its dates *)

Section SeriesOrder.





(** The same amounts by category: the sections of food and of rent total
    1.2000000000000002 and 0.1, which add up to 1.3000000000000003, and
    the total of the stats bar is 1.3. *)
Remark section_totals_regroup_the_total_in_binary64 :
  let txs := [Tx.mk 1 expense "0.10" "food" "" "2024-01-02" "" "";
              Tx.mk 2 expense "0.10" "rent" "" "2024-01-01" "" "";
              Tx.mk 3 expense "1.10" "food" "" "2024-01-02" "" ""] in
  Category.orderedCategories txs expense [] = ["food"; "rent"] /\
  PrimFloat.add
    (Binary64.sectionTotal (CategoryStats.items txs expense "food"))
    (Binary64.sectionTotal (CategoryStats.items txs expense "rent"))
  = PrimFloat.next_up (Binary64.parseFloat "1.3") /\
  Binary64.total txs expense = Binary64.parseFloat "1.3".
Proof.
  cbv zeta. split; [vm_compute; reflexivity|].
  split; vm_compute; reflexivity.
Qed.

End SeriesOrder.

(** ** The sections of the category view *)

Section CategorySections.
Import Category CategoryStats.

Lemma group_step_eq (m : list (string * list Transaction)) (t : Transaction) :
  group_step m t =
  match JSMap.get m (Tx.category t) with
  | Some l => JSMap.set m (Tx.category t) (l ++ [t])
  | None => JSMap.set (JSMap.set m (Tx.category t) []) (Tx.category t) [t]
  end.
Proof.
  unfold group_step, JSMap.has.
  destruct (JSMap.get m (Tx.category t)) as [l|] eqn:G.
  - now rewrite G.
  - now rewrite get_set_eq.
Qed.

Lemma group_step_get_same (m : list (string * list Transaction)) (t : Transaction) :
  JSMap.get (group_step m t) (Tx.category t)
  = Some (match JSMap.get m (Tx.category t) with Some l => l | None => [] end ++ [t]).
Proof.
  rewrite group_step_eq.
  destruct (JSMap.get m (Tx.category t)); apply get_set_eq.
Qed.

Lemma group_step_get_other (m : list (string * list Transaction)) (t : Transaction)
    (c : string) :
  Tx.category t <> c -> JSMap.get (group_step m t) c = JSMap.get m c.
Proof.
  intros H. rewrite group_step_eq.
  destruct (JSMap.get m (Tx.category t)); now rewrite !get_set_ne.
Qed.

Lemma fold_group_get (xs : list Transaction) (m : list (string * list Transaction))
    (c : string) :
  JSMap.get (fold_left group_step xs m) c =
  match JSMap.get m c with
  | Some l => Some (l ++ filter (fun t => String.eqb (Tx.category t) c) xs)
  | None =>
      if existsb (fun t => String.eqb (Tx.category t) c) xs
      then Some (filter (fun t => String.eqb (Tx.category t) c) xs)
      else None
  end.
Proof.
  revert m. induction xs as [|t xs IH]; intros m; cbn [fold_left existsb filter].
  - destruct (JSMap.get m c); [now rewrite app_nil_r|reflexivity].
  - rewrite IH. destruct (String.eqb (Tx.category t) c) eqn:E.
    + apply String.eqb_eq in E. subst c. rewrite group_step_get_same. cbn [orb].
      destruct (JSMap.get m (Tx.category t)); [now rewrite <- app_assoc|reflexivity].
    + apply String.eqb_neq in E. now rewrite (group_step_get_other m t c E).
Qed.

Lemma existsb_false_filter {A : Type} (p : A -> bool) (xs : list A) :
  existsb p xs = false -> filter p xs = [].
Proof.
  intros H. apply filter_all_false. intros x Hx.
  destruct (p x) eqn:E; [|reflexivity].
  assert (existsb p xs = true) by (apply existsb_exists; eauto). congruence.
Qed.

Lemma grouped_get (transactions : list Transaction) (activeTab : TxType) (c : string) :
  JSMap.get (grouped transactions activeTab) c =
  if existsb (Spec.inCategory activeTab c) transactions
  then Some (filter (Spec.inCategory activeTab c) transactions) else None.
Proof.
  unfold grouped. rewrite fold_group_get. cbn [JSMap.get].
  now rewrite existsb_filter, filter_twice.
Qed.

Lemma items_filter (transactions : list Transaction) (activeTab : TxType) (c : string) :
  items transactions activeTab c = filter (Spec.inCategory activeTab c) transactions.
Proof.
  unfold items. rewrite grouped_get.
  destruct (existsb _ transactions) eqn:E; [reflexivity|].
  symmetry. now apply existsb_false_filter.
Qed.

Lemma values_length_set (m : list (string * list Transaction)) (k : string)
    (v : list Transaction) (n : nat) :
  length v = (length (match JSMap.get m k with Some l => l | None => [] end) + n)%nat ->
  length (concat (map snd (JSMap.set m k v)))
  = (length (concat (map snd m)) + n)%nat.
Proof.
  induction m as [|[k' v'] m IH]; cbn [JSMap.set JSMap.get map snd concat]; intros H.
  - rewrite app_nil_r. exact H.
  - destruct (String.eqb k' k); cbn [map snd concat]; rewrite !length_app.
    + lia.
    + rewrite (IH H). lia.
Qed.

Lemma values_length_step (m : list (string * list Transaction)) (t : Transaction) :
  length (concat (map snd (group_step m t))) = S (length (concat (map snd m))).
Proof.
  rewrite group_step_eq.
  destruct (JSMap.get m (Tx.category t)) as [l|] eqn:G.
  - rewrite (values_length_set m _ _ 1); [lia|]. rewrite G, length_app. reflexivity.
  - rewrite (values_length_set _ _ _ 1).
    + rewrite (values_length_set m _ _ 0); [lia|]. now rewrite G.
    + now rewrite get_set_eq.
Qed.

Lemma values_length_fold (xs : list Transaction) (m : list (string * list Transaction)) :
  length (concat (map snd (fold_left group_step xs m)))
  = (length (concat (map snd m)) + length xs)%nat.
Proof.
  revert m. induction xs as [|t xs IH]; intros m; cbn [fold_left length].
  - lia.
  - rewrite IH, values_length_step. lia.
Qed.

(** X5. The grouping of the category view has an entry for exactly the
    categories that have a transaction of the active tab; the entry of a
    category holds those transactions, all of them, in the order of the
    list, and is never empty; the transaction count of the stats bar is the
    number of transactions of the active tab. *)
Theorem category_sections_hold_their_transactions
    (transactions : list Transaction) (activeTab : TxType) :
  (forall c,
     JSMap.get (grouped transactions activeTab) c =
     if existsb (Spec.inCategory activeTab c) transactions
     then Some (filter (Spec.inCategory activeTab c) transactions) else None) /\
  (forall c, items transactions activeTab c
             = filter (Spec.inCategory activeTab c) transactions) /\
  (forall c l, JSMap.get (grouped transactions activeTab) c = Some l -> l <> []) /\
  txCount transactions activeTab
  = length (filter (fun t => TxType_eqb (Tx.type t) activeTab) transactions) /\
  grouped [] activeTab = [].
Proof.
  split; [apply grouped_get|]. split; [apply items_filter|].
  split; [|split; [|reflexivity]].
  - intros c l. rewrite grouped_get.
    destruct (existsb _ transactions) eqn:E; [|discriminate].
    intros [= <-]. apply existsb_exists in E. destruct E as (t & Ht & Hp).
    intros F. assert (In t (filter (Spec.inCategory activeTab c) transactions))
      by (apply filter_In; auto).
    rewrite F in H. destruct H.
  - unfold txCount, grouped. now rewrite values_length_fold.
Qed.

(** X6. For a saved order without repetition, the sections shown share out
    the transactions of the active tab: every one of them is in the section
    of its category and in no other, so the sections hold [txCount]
    transactions together.  The total of a section adds the amounts of the
    tab's transactions of its category, in the order of the list; no shown
    section is empty, and the category count is the number of categories of
    the grouping. *)
Theorem shown_sections_share_out_the_tab
    (transactions : list Transaction) (activeTab : TxType)
    (categoryOrder : list string) :
  NoDup categoryOrder ->
  let shown := orderedCategories transactions activeTab categoryOrder in
  Permutation (concat (map (items transactions activeTab) shown))
              (filter (fun t => TxType_eqb (Tx.type t) activeTab) transactions) /\
  length (concat (map (items transactions activeTab) shown))
  = txCount transactions activeTab /\
  (forall c, sectionTotal (items transactions activeTab c)
             = sumAmounts (filter (Spec.inCategory activeTab c) transactions)) /\
  (forall c, In c shown -> items transactions activeTab c <> []) /\
  categoryCount transactions activeTab categoryOrder
  = length (JSMap.keys (grouped transactions activeTab)).
Proof.
  intros Hs. cbv zeta.
  set (fromData := JSMap.keys (grouped transactions activeTab)).
  assert (Nf : NoDup fromData).
  { unfold fromData. rewrite grouped_keys. apply (firstSeen_NoDup _ []), NoDup_nil. }
  assert (P : Permutation (orderedCategories transactions activeTab categoryOrder) fromData).
  { apply NoDup_Permutation.
    - now apply mergeWithObserved_NoDup.
    - exact Nf.
    - intros c. apply mergeWithObserved_In. }
  assert (S : Permutation
                (concat (map (items transactions activeTab)
                           (orderedCategories transactions activeTab categoryOrder)))
                (filter (fun t => TxType_eqb (Tx.type t) activeTab) transactions)).
  { rewrite <- !flat_map_concat_map.
    etransitivity; [apply Permutation_flat_map, P|].
    rewrite flat_map_concat_map.
    rewrite (map_ext _ _ (items_filter transactions activeTab)).
    apply (groups_partition (fun t => TxType_eqb (Tx.type t) activeTab) Tx.category);
      [exact Nf|].
    intros t Ht Ty. unfold fromData. rewrite grouped_keys.
    rewrite <- (app_nil_l (Spec.firstSeen _ _)). apply firstSeen_In. right.
    apply in_map. apply filter_In. now split. }
  split; [exact S|]. split; [|split; [|split]].
  - rewrite (Permutation_length S). unfold txCount, grouped.
    now rewrite values_length_fold.
  - intros c. unfold sectionTotal. now rewrite items_filter.
  - intros c Hc. apply (Permutation_in _ P) in Hc. unfold fromData in Hc.
    apply has_In in Hc. unfold JSMap.has in Hc. unfold items.
    destruct (JSMap.get (grouped transactions activeTab) c) as [l|] eqn:G; [|discriminate].
    rewrite grouped_get in G.
    destruct (existsb _ transactions) eqn:E; [|discriminate].
    injection G as <-. apply existsb_exists in E. destruct E as (t & Ht & Hp).
    intros F. assert (In t (filter (Spec.inCategory activeTab c) transactions))
      by (apply filter_In; auto).
    rewrite F in H. destruct H.
  - unfold categoryCount. now apply Permutation_length.
Qed.

(** The theorem for two categories and a saved order that names one of them. *)
Lemma shown_sections_share_out_the_tab_witness :
  let txs := [Tx.mk 1 expense "10.00" "food" "" "2024-01-10" "" "";
              Tx.mk 2 expense "45.50" "rent" "" "2024-01-10" "" "";
              Tx.mk 3 expense "2.25" "food" "" "2024-01-11" "" ""] in
  NoDup ["rent"] /\
  Permutation (concat (map (items txs expense) (orderedCategories txs expense ["rent"])))
              (filter (fun t => TxType_eqb (Tx.type t) expense) txs).
Proof.
  cbv zeta.
  assert (H : NoDup ["rent"]) by (constructor; [intros []|constructor]).
  split; [exact H|].
  exact (proj1 (shown_sections_share_out_the_tab _ expense ["rent"] H)).
Defined.

End CategorySections.

(** ** Dragging a category *)

Section Drag.
Import Category CategoryStats.

Lemma indexOf_range (xs : list string) (x : string) :
  -1 <= indexOf xs x < Z.of_nat (length xs).
Proof.
  induction xs as [|y xs IH]; cbn [indexOf length]; [lia|].
  destruct (String.eqb y x); [lia|].
  destruct (indexOf xs x <? 0) eqn:E; [lia|]. apply Z.ltb_ge in E. lia.
Qed.

Lemma indexOf_In (xs : list string) (x : string) :
  In x xs ->
  0 <= indexOf xs x /\ nth_error xs (Z.to_nat (indexOf xs x)) = Some x.
Proof.
  induction xs as [|y xs IH]; intros H; [destruct H|].
  cbn [indexOf]. destruct (String.eqb y x) eqn:E.
  - apply String.eqb_eq in E. subst. split; [lia|reflexivity].
  - apply String.eqb_neq in E. destruct H as [H|H]; [contradiction|].
    destruct (IH H) as [H0 Hn].
    replace (indexOf xs x <? 0) with false by (symmetry; apply Z.ltb_ge; lia).
    split; [lia|].
    replace (Z.to_nat (indexOf xs x + 1)) with (S (Z.to_nat (indexOf xs x))) by lia.
    exact Hn.
Qed.

Lemma indexOf_absent (xs : list string) (x : string) :
  ~ In x xs -> indexOf xs x = -1.
Proof.
  induction xs as [|y xs IH]; intros H; [reflexivity|].
  cbn [indexOf]. destruct (String.eqb y x) eqn:E.
  - apply String.eqb_eq in E. subst. destruct H. now left.
  - rewrite IH; [reflexivity|]. intros Hx. apply H. now right.
Qed.

Lemma nth_error_split_at (xs : list string) (i : nat) (x : string) :
  nth_error xs i = Some x ->
  xs = firstn i xs ++ x :: skipn (S i) xs /\ length (firstn i xs) = i.
Proof.
  revert i. induction xs as [|y xs IH]; intros [|i] H; try discriminate.
  - injection H as ->. now split.
  - cbn [nth_error] in H. destruct (IH i H) as [E L].
    cbn [firstn skipn app length]. split; [now rewrite <- E|now rewrite L].
Qed.

(** A move within the array: the element at [from] ends at [to], and the
    array is rearranged, nothing more. *)
Lemma arrayMove_in_range (array : list string) (from to : Z) (x : string) :
  0 <= from -> nth_error array (Z.to_nat from) = Some x ->
  0 <= to < Z.of_nat (length array) ->
  Permutation (arrayMove array from to) array /\
  nth_error (arrayMove array from to) (Z.to_nat to) = Some x.
Proof.
  intros Hf Hn Ht. unfold arrayMove.
  assert (Hlt : (Z.to_nat from < length array)%nat).
  { apply nth_error_Some. congruence. }
  assert (Ei : spliceStart (Z.of_nat (length array)) from = Z.to_nat from).
  { unfold spliceStart. replace (from <? 0) with false by (symmetry; apply Z.ltb_ge; lia).
    f_equal. lia. }
  rewrite Ei, Hn.
  replace (to <? 0) with false by (symmetry; apply Z.ltb_ge; lia).
  assert (Ej : spliceStart (Z.of_nat (length array) - 1) to = Z.to_nat to).
  { unfold spliceStart. replace (to <? 0) with false by (symmetry; apply Z.ltb_ge; lia).
    f_equal. lia. }
  rewrite Ej.
  destruct (nth_error_split_at _ _ _ Hn) as [E L].
  set (rest := firstn (Z.to_nat from) array ++ skipn (S (Z.to_nat from)) array).
  assert (Lr : length rest = (length array - 1)%nat).
  { unfold rest. rewrite length_app, length_firstn, length_skipn. lia. }
  split.
  - transitivity (x :: rest).
    + rewrite <- (firstn_skipn (Z.to_nat to) rest) at 3.
      symmetry. apply Permutation_middle.
    + apply Permutation_trans
        with (firstn (Z.to_nat from) array ++ x :: skipn (S (Z.to_nat from)) array).
      * apply Permutation_middle.
      * now rewrite <- E.
  - rewrite nth_error_app2; rewrite length_firstn, Nat.min_l by lia; [|lia].
    now rewrite Nat.sub_diag.
Qed.

Lemma filter_all_true {A : Type} (p : A -> bool) (l : list A) :
  (forall x, In x l -> p x = true) -> filter p l = l.
Proof.
  induction l as [|a l IH]; intros H; cbn [filter]; [reflexivity|].
  rewrite (H a (or_introl eq_refl)). f_equal. apply IH.
  intros x Hx. apply H. now right.
Qed.

(** An order that holds exactly the categories of the data is displayed as
    it is. *)
Lemma merge_of_rearranged (newOrder fromData : list string) :
  (forall c, In c newOrder <-> In c fromData) ->
  mergeWithObserved newOrder fromData = newOrder.
Proof.
  intros Hs. rewrite mergeWithObserved_eq.
  rewrite (filter_all_false _ fromData), app_nil_r.
  - apply filter_all_true. intros c Hc. now apply includes_iff, Hs.
  - intros c Hc. now apply negb_false_iff, includes_iff, Hs.
Qed.

Lemma mergeWithObserved_idempotent (savedOrder fromData : list string) :
  mergeWithObserved (mergeWithObserved savedOrder fromData) fromData
  = mergeWithObserved savedOrder fromData.
Proof. apply merge_of_rearranged. intros c. apply mergeWithObserved_In. Qed.

(** X7. A drag of a shown category onto another shown category saves a
    rearrangement of the shown order in which the dragged category stands
    at the index the target had; no category is lost or repeated; and the
    order displayed after the drag is the saved order itself. *)
Theorem drag_rearranges_the_shown_order
    (transactions : list Transaction) (activeTab : TxType)
    (categoryOrder : list string) (active over : string) :
  let shown := orderedCategories transactions activeTab categoryOrder in
  In active shown -> In over shown -> active <> over ->
  let newOrder := handleDragEnd shown categoryOrder active (Some over) in
  Permutation newOrder shown /\
  nth_error newOrder (Z.to_nat (indexOf shown over)) = Some active /\
  (NoDup categoryOrder -> NoDup newOrder) /\
  orderedCategories transactions activeTab newOrder = newOrder.
Proof.
  cbv zeta. intros Ha Ho Hne.
  set (shown := orderedCategories transactions activeTab categoryOrder) in *.
  unfold handleDragEnd.
  rewrite (proj2 (String.eqb_neq active over) Hne).
  destruct (indexOf_In shown active Ha) as [Ha0 Han].
  destruct (indexOf_In shown over Ho) as [Ho0 _].
  pose proof (indexOf_range shown over) as Hor.
  destruct (arrayMove_in_range shown _ (indexOf shown over) active Ha0 Han) as [P N];
    [lia|].
  split; [exact P|]. split; [exact N|]. split.
  - intros Hs. apply (Permutation_NoDup (Permutation_sym P)).
    apply mergeWithObserved_NoDup; [exact Hs|].
    rewrite grouped_keys. apply (firstSeen_NoDup _ []), NoDup_nil.
  - unfold orderedCategories at 1. apply merge_of_rearranged. intros c.
    split; intros H.
    + apply (mergeWithObserved_In categoryOrder). exact (Permutation_in _ P H).
    + apply (Permutation_in _ (Permutation_sym P)).
      now apply (mergeWithObserved_In categoryOrder).
Qed.

(** The theorem for a drag of the first of three shown categories onto the last. *)
Lemma drag_rearranges_the_shown_order_witness :
  let txs := [Tx.mk 1 expense "10.00" "food" "" "2024-01-10" "" "";
              Tx.mk 2 expense "45.50" "rent" "" "2024-01-10" "" "";
              Tx.mk 3 expense "2.25" "fuel" "" "2024-01-11" "" ""] in
  let shown := orderedCategories txs expense [] in
  shown = ["food"; "rent"; "fuel"] /\
  Permutation (handleDragEnd shown [] "food" (Some "fuel")) shown /\
  nth_error (handleDragEnd shown [] "food" (Some "fuel"))
            (Z.to_nat (indexOf shown "fuel")) = Some "food".
Proof.
  cbv zeta. split; [vm_compute; reflexivity|].
  pose proof (drag_rearranges_the_shown_order
                [Tx.mk 1 expense "10.00" "food" "" "2024-01-10" "" "";
                 Tx.mk 2 expense "45.50" "rent" "" "2024-01-10" "" "";
                 Tx.mk 3 expense "2.25" "fuel" "" "2024-01-11" "" ""]
                expense [] "food" "fuel") as D.
  cbv zeta in D.
  assert (Ha : In "food" (orderedCategories
                [Tx.mk 1 expense "10.00" "food" "" "2024-01-10" "" "";
                 Tx.mk 2 expense "45.50" "rent" "" "2024-01-10" "" "";
                 Tx.mk 3 expense "2.25" "fuel" "" "2024-01-11" "" ""] expense []))
    by (vm_compute; auto).
  assert (Ho : In "fuel" (orderedCategories
                [Tx.mk 1 expense "10.00" "food" "" "2024-01-10" "" "";
                 Tx.mk 2 expense "45.50" "rent" "" "2024-01-10" "" "";
                 Tx.mk 3 expense "2.25" "fuel" "" "2024-01-11" "" ""] expense []))
    by (vm_compute; auto).
  assert (Hne : "food" <> "fuel") by discriminate.
  destruct (D Ha Ho Hne) as (P & N & _).
  split; [exact P|exact N].
Defined.

(** X13. Merging is idempotent: the displayed order, merged again with the
    same data, is displayed unchanged; and a drop on nothing or on the
    dragged category itself keeps the saved order. *)
Theorem merge_is_idempotent (savedOrder fromData shown : list string) (active : string) :
  mergeWithObserved (mergeWithObserved savedOrder fromData) fromData
  = mergeWithObserved savedOrder fromData /\
  handleDragEnd shown savedOrder active None = savedOrder /\
  handleDragEnd shown savedOrder active (Some active) = savedOrder.
Proof.
  split; [apply mergeWithObserved_idempotent|]. split; [reflexivity|].
  unfold handleDragEnd. now rewrite String.eqb_refl.
Qed.

End Drag.

(** ** The limit form *)

Section LimitFormFacts.
Import Limits.

Lemma orZero_numeric (x : number) : isNaN (orZero x) = false.
Proof. unfold orZero. destruct x; reflexivity || (cbn [truthy]; now destruct (negb _)). Qed.

Lemma le_false_gt (x : number) :
  isNaN x = false -> le x (ofZ 0) = false -> gt x (ofZ 0) = true.
Proof.
  destruct x as [q|]; [|discriminate]. intros _ H.
  apply gt_true. exists q, (Q2Qc 0). split; [reflexivity|]. split; [reflexivity|].
  apply Qcnot_le_lt. intros Hle.
  assert (le (Num q) (ofZ 0) = true) by (apply le_true; eauto). congruence.
Qed.

Lemma orZero_positive (x : number) :
  gt (orZero x) (ofZ 0) = true -> gt x (ofZ 0) = true /\ orZero x = x.
Proof.
  unfold orZero. destruct (truthy x); [now split|]. discriminate.
Qed.

(** X9. Whatever is typed into the two inputs of the limit form, the
    limits saved are never [NaN]; an input that parses to a positive number
    is saved as that number; and a banner can be rendered for a saved limit
    only when its input parsed to a positive number (a blank, zero,
    non-numeric or negative input silences the banner for every spend). *)
Theorem limit_form_saves_usable_limits (dailyInput weeklyInput : string) :
  let l := LimitForm.save dailyInput weeklyInput in
  isNaN (daily l) = false /\ isNaN (weekly l) = false /\
  (gt (parseFloat dailyInput) (ofZ 0) = true -> daily l = parseFloat dailyInput) /\
  (gt (parseFloat weeklyInput) (ofZ 0) = true -> weekly l = parseFloat weeklyInput) /\
  (forall spend b,
     LimitBanner spend (daily l) (pctOf spend (daily l)) false = Some b ->
     gt (parseFloat dailyInput) (ofZ 0) = true /\ daily l = parseFloat dailyInput) /\
  (forall spend b,
     LimitBanner spend (weekly l) (pctOf spend (weekly l)) false = Some b ->
     gt (parseFloat weeklyInput) (ofZ 0) = true /\ weekly l = parseFloat weeklyInput) /\
  LimitForm.save "" "abc" = mkLimits (ofZ 0) (ofZ 0).
Proof.
  cbv zeta. unfold LimitForm.save. cbn [daily weekly].
  assert (P : forall x, gt x (ofZ 0) = true -> orZero x = x).
  { intros x H. apply gt_true in H. destruct H as (q & z & -> & Ez & H).
    injection Ez as <-. unfold orZero, truthy, Qc_eq_bool.
    destruct (Qc_eq_dec q (Q2Qc 0)) as [->|_]; [|reflexivity].
    destruct (Qclt_not_le _ _ H). apply Qcle_refl. }
  assert (B : forall x spend b,
            LimitBanner spend (orZero x) (pctOf spend (orZero x)) false = Some b ->
            gt x (ofZ 0) = true /\ orZero x = x).
  { intros x spend b H. apply orZero_positive. apply le_false_gt.
    - apply orZero_numeric.
    - unfold LimitBanner in H. now destruct (le (orZero x) (ofZ 0)). }
  split; [apply orZero_numeric|]. split; [apply orZero_numeric|].
  split; [apply P|]. split; [apply P|].
  split; [apply B|]. split; [apply B|]. reflexivity.
Qed.

End LimitFormFacts.

(** ** The steps of the transaction form *)

Section WizardFacts.
Import Wizard.

Lemma goNext_steady (st : State) :
  stepped st -> step st < 2 -> stepped (goNext st).
Proof.
  intros (Hs & Ha & Hc) H2. unfold goNext.
  destruct (step st =? 0) eqn:E0; destruct (step st =? 1) eqn:E1;
    destruct (isEmpty (amount (form st))) eqn:Ea;
    destruct (le (parseFloat (amount (form st))) (ofZ 0)) eqn:El;
    destruct (isEmpty (category (form st))) eqn:Ec;
    cbn [andb orb]; unfold stepped; cbn [step form];
    rewrite ?Z.eqb_eq, ?Z.eqb_neq in *;
    (split; [lia|split; intros];
     first [apply Ha; lia | apply Hc; lia | split; assumption | assumption
           | exfalso; lia]).
Qed.

Lemma handle_steady (e : Event) (st st' : State) :
  stepped st -> handle e st = Some st' -> stepped st'.
Proof.
  intros I. pose proof I as (Hs & Ha & Hc). unfold handle.
  destruct e;
    try (destruct (step st <? 2) eqn:E; intros [= <-];
         [apply Z.ltb_lt in E; now apply goNext_steady|exact I]);
    try discriminate;
    match goal with
    | |- (if ?c then _ else _) = _ -> _ => destruct c eqn:E
    end;
    try discriminate; intros [= <-]; try exact I;
    rewrite ?Z.eqb_eq, ?Z.eqb_neq in E;
    unfold stepped, goBack, withForm; cbn [step form amount category];
    (split; [lia|split; intros];
     first [apply Ha; lia | apply Hc; lia | exfalso; lia]).
Qed.

Lemma run_steady (es : list Event) (st st' : State) :
  stepped st -> run es st = Some st' -> stepped st'.
Proof.
  revert st. induction es as [|e es IH]; intros st I; cbn [run].
  - now intros [= <-].
  - destruct (handle e st) as [st1|] eqn:H; [|discriminate].
    apply IH. exact (handle_steady e st st1 I H).
Qed.

(** X10. However the form is used, starting from any form: while the modal
    is open the step is 0, 1 or 2 (so [STEP_META[step]] is defined); once
    step 0 is left the amount is not empty and [parseFloat(amount) <= 0] is
    false; and the Save button is shown only at step 2, with a category set
    and such an amount.  The check of step 0 lets a non-empty amount that
    does not parse through, since [NaN <= 0] is false. *)
Theorem wizard_reaches_save_validated (f : FormState) (es : list Event) :
  match run es (open f) with
  | Some st =>
      0 <= step st <= 2 /\
      (1 <= step st ->
         isEmpty (amount (form st)) = false /\
         le (parseFloat (amount (form st))) (ofZ 0) = false) /\
      (showsSave st = true ->
         step st = 2 /\ isEmpty (category (form st)) = false /\
         isEmpty (amount (form st)) = false /\
         le (parseFloat (amount (form st))) (ofZ 0) = false)
  | None => True
  end /\
  (isEmpty (amount f) = false -> parseFloat (amount f) = NaN ->
   step (goNext (open f)) = 1) /\
  (isEmpty (amount f) = true -> goNext (open f)
     = mkState 0 "Please enter a valid amount greater than 0." fwd f).
Proof.
  split; [|split].
  2:{ intros E N. unfold goNext, open. cbn [step form]. now rewrite E, N. }
  2:{ intros E. unfold goNext, open. cbn [step form direction]. now rewrite E. }
  destruct (run es (open f)) as [st|] eqn:R; [|exact I].
  assert (S0 : stepped (open f)).
  { unfold stepped, open. cbn [step]. repeat split; try lia; intros; lia. }
  destruct (run_steady es _ _ S0 R) as (Hs & Ha & Hc).
  split; [exact Hs|]. split; [exact Ha|].
  unfold showsSave. intros H. apply negb_true_iff, Z.ltb_ge in H.
  assert (E : step st = 2) by lia.
  split; [exact E|]. split; [now apply Hc|]. apply Ha. lia.
Qed.

End WizardFacts.

(** ** The filters across changes and reloads *)

Section FilterReload.
Import Filters FilterEvents.

Lemma getOrEmpty_persist_same (k old new : string) (store : gmap string string) :
  getOrEmpty store k = old -> getOrEmpty (persist k old new store) k = new.
Proof.
  intros H. unfold getOrEmpty. rewrite persist_lookup_same.
  destruct (String.eqb old new) eqn:E; [|reflexivity].
  apply String.eqb_eq in E. now subst.
Qed.

Lemma getOrEmpty_persist_other (k k' old new : string) (store : gmap string string) :
  k <> k' -> getOrEmpty (persist k old new store) k' = getOrEmpty store k'.
Proof. intros H. unfold getOrEmpty. now rewrite persist_lookup_other. Qed.

Lemma change_synced (st : State) (ft fc ff fo : string) :
  synced st -> synced (change st ft fc ff fo).
Proof.
  intros (H1 & H2 & H3 & H4). unfold synced, change, runEffects.
  cbn [sessionStorage filterType filterCategory filterFrom filterTo].
  repeat split.
  - rewrite !getOrEmpty_persist_other by discriminate.
    now apply getOrEmpty_persist_same.
  - rewrite !getOrEmpty_persist_other by discriminate.
    apply getOrEmpty_persist_same.
    now rewrite getOrEmpty_persist_other by discriminate.
  - rewrite !getOrEmpty_persist_other by discriminate.
    apply getOrEmpty_persist_same.
    now rewrite !getOrEmpty_persist_other by discriminate.
  - apply getOrEmpty_persist_same.
    now rewrite !getOrEmpty_persist_other by discriminate.
Qed.

Lemma getOrEmpty_delete_same (k : string) (store : gmap string string) :
  getOrEmpty (delete k store) k = "".
Proof. unfold getOrEmpty. now rewrite lookup_delete_eq. Qed.

Lemma getOrEmpty_delete_other (k k' : string) (store : gmap string string) :
  k <> k' -> getOrEmpty (delete k store) k' = getOrEmpty store k'.
Proof. intros H. unfold getOrEmpty. now rewrite lookup_delete_ne. Qed.

(** After the click and its render every key reads as the empty string,
    whether its entry is absent or holds the empty string. *)
Lemma clearFilters_synced (st : State) : synced (clearFilters st).
Proof.
  unfold synced, clearFilters, runEffects, clearClick.
  cbn [sessionStorage filterType filterCategory filterFrom filterTo].
  assert (P : forall k old store,
            getOrEmpty store k = "" -> getOrEmpty (persist k old "" store) k = "").
  { intros k old store H. unfold getOrEmpty, persist in *.
    destruct (String.eqb old ""); [exact H|]. now rewrite lookup_insert_eq. }
  repeat split.
  - rewrite !getOrEmpty_persist_other by discriminate. apply P.
    rewrite !getOrEmpty_delete_other by discriminate.
    apply getOrEmpty_delete_same.
  - rewrite !getOrEmpty_persist_other by discriminate. apply P.
    rewrite getOrEmpty_persist_other by discriminate.
    rewrite !getOrEmpty_delete_other by discriminate.
    apply getOrEmpty_delete_same.
  - rewrite !getOrEmpty_persist_other by discriminate. apply P.
    rewrite !getOrEmpty_persist_other by discriminate.
    rewrite !getOrEmpty_delete_other by discriminate.
    apply getOrEmpty_delete_same.
  - apply P. rewrite !getOrEmpty_persist_other by discriminate.
    apply getOrEmpty_delete_same.
Qed.

Lemma mount_synced (store : gmap string string) : synced (mount store).
Proof.
  unfold synced, mount, getOrEmpty.
  cbn [sessionStorage filterType filterCategory filterFrom filterTo].
  repeat split.
  - rewrite !lookup_insert_ne by discriminate. now rewrite lookup_insert_eq.
  - rewrite !lookup_insert_ne by discriminate. now rewrite lookup_insert_eq.
  - rewrite !lookup_insert_ne by discriminate. now rewrite lookup_insert_eq.
  - now rewrite lookup_insert_eq.
Qed.

Lemma handle_synced (e : Event) (st : State) : synced st -> synced (handle e st).
Proof.
  intros H. destruct e; cbn [handle]; try now apply change_synced.
  destruct (clearVisible st); [apply clearFilters_synced|exact H].
Qed.

Lemma run_synced (es : list Event) (st : State) : synced st -> synced (run es st).
Proof.
  unfold run. revert st. induction es as [|e es IH]; intros st H; cbn [fold_left].
  - exact H.
  - apply IH. now apply handle_synced.
Qed.

(** X11. After any sequence of filter changes and clears, from any storage
    the session starts with, a reload of the page restores the four filter
    fields exactly and sends the same request parameters; a click on Clear
    filters leaves no parameter to send, before and after a reload, whether
    the cleared keys are absent from the storage or hold the empty
    string. *)
Theorem filters_survive_reload (store : gmap string string) (es : list Event) :
  let st := run es (mount store) in
  filterType (reload st) = filterType st /\
  filterCategory (reload st) = filterCategory st /\
  filterFrom (reload st) = filterFrom st /\
  filterTo (reload st) = filterTo st /\
  params (reload st) = params st /\
  params (handle ClickClear st) = [] /\
  params (reload (handle ClickClear st)) = [].
Proof.
  cbv zeta. set (st := run es (mount store)).
  assert (S : synced st) by apply run_synced, mount_synced.
  assert (R : forall s, synced s ->
            filterType (reload s) = filterType s /\
            filterCategory (reload s) = filterCategory s /\
            filterFrom (reload s) = filterFrom s /\
            filterTo (reload s) = filterTo s).
  { intros s (H1 & H2 & H3 & H4). unfold reload, mount.
    cbn [filterType filterCategory filterFrom filterTo]. auto. }
  assert (Q : forall s, synced s -> params (reload s) = params s).
  { intros s Hs. destruct (R s Hs) as (E1 & E2 & E3 & E4).
    unfold params. now rewrite E1, E2, E3, E4. }
  destruct (R st S) as (E1 & E2 & E3 & E4).
  assert (C : params (handle ClickClear st) = []).
  { cbn [handle]. destruct (clearVisible st) eqn:V; [reflexivity|].
    unfold clearVisible in V. rewrite !orb_false_iff, !negb_false_iff in V.
    destruct V as [[[V1 V2] V3] V4].
    unfold params, param. now rewrite V1, V2, V3, V4. }
  repeat split; auto.
  rewrite Q; [exact C|]. now apply handle_synced.
Qed.

End FilterReload.
